(** * Portable elementwise kernels: bitwise_or and detach_copy

    A shallow embedding of [kernels/portable/cpu/op_bitwise_or.cpp] and
    [kernels/portable/cpu/op_detach_copy.cpp], together with the helpers of
    the runtime they call (shape broadcasting, dtype promotion, tensor
    resizing, the elementwise appliers), and the properties of the
    operator entry points. *)

From Stdlib Require Import ZArith Bool Lia.
From Stdlib Require Import Floats.SpecFloat.
From stdpp Require Import base list.

Local Open Scope Z_scope.

(** ** Dtypes *)

(** Modelled from the spec: the [ScalarType] enumeration is declared in a
    runtime header outside the kernels.  The eight kinds the spec names are
    kept; its "reserved kinds for future types" have no rule anywhere in the
    spec and are left out. *)
Inductive ScalarType :=
  | Byte     (* uint8_t *)
  | Char     (* int8_t *)
  | Short    (* int16_t *)
  | Int      (* int32_t *)
  | Long     (* int64_t *)
  | Float    (* float *)
  | Double   (* double *)
  | Bool.    (* bool *)

Definition ScalarType_eqb (a b : ScalarType) : bool :=
  match a, b with
  | Byte, Byte | Char, Char | Short, Short | Int, Int | Long, Long
  | Float, Float | Double, Double | Bool, Bool => true
  | _, _ => false
  end.

(** Width of one element, in bytes. *)
Definition elementSize (t : ScalarType) : Z :=
  match t with
  | Byte | Char | Bool => 1
  | Short => 2
  | Int | Float => 4
  | Long | Double => 8
  end.

Definition isFloatingType (t : ScalarType) : bool :=
  match t with Float | Double => true | _ => false end.

Definition isIntegralType (t : ScalarType) (includeBool : bool) : bool :=
  match t with
  | Byte | Char | Short | Int | Long => true
  | Bool => includeBool
  | Float | Double => false
  end.

Definition isSignedType (t : ScalarType) : bool :=
  match t with
  | Byte | Bool => false
  | _ => true
  end.

(** Range of the values of an integral (or boolean) dtype. *)
Definition lower_bound (t : ScalarType) : Z :=
  match t with
  | Char => - 2 ^ 7
  | Short => - 2 ^ 15
  | Int => - 2 ^ 31
  | Long => - 2 ^ 63
  | _ => 0
  end.

Definition upper_bound (t : ScalarType) : Z :=
  match t with
  | Bool => 1
  | Byte => 2 ^ 8 - 1
  | Char => 2 ^ 7 - 1
  | Short => 2 ^ 15 - 1
  | Int => 2 ^ 31 - 1
  | Long => 2 ^ 63 - 1
  | Float | Double => 0
  end.

(** [v] is a value of the integral dtype [t]. *)
Definition representable (t : ScalarType) (v : Z) : bool :=
  isIntegralType t true && (lower_bound t <=? v) && (v <=? upper_bound t).

(** The range of [a] lies within the range of [t]. *)
Definition holds_range (t a : ScalarType) : bool :=
  (lower_bound t <=? lower_bound a) && (upper_bound a <=? upper_bound t).

(** The dtype sets of the [ET_SWITCH_*] dispatch macros used by the kernels
    (the macros are defined in a runtime header). *)
Definition INT_TYPES_AND_Bool (t : ScalarType) : bool := isIntegralType t true.

Definition REAL_TYPES_AND_Bool (t : ScalarType) : bool :=
  isIntegralType t true || isFloatingType t.

Definition FLOAT_TYPES (t : ScalarType) : bool := isFloatingType t.

Definition SCALAR_OBJ_INTB_TYPES (t : ScalarType) : bool :=
  match t with Bool | Long => true | _ => false end.

(** ** Type promoter *)

Definition wider (a b : ScalarType) : ScalarType :=
  if elementSize a <? elementSize b then b else a.

(** Modelled from the spec: [promoteTypes] is defined in a runtime header
    outside the kernels.  Spec 4.2: boolean promotes to any numeric type;
    among integer types the result is the wider type, with signed/unsigned
    mixing resolved by widening to a signed type that can represent both
    ranges; an integer combined with a floating type promotes to that
    floating type; two floating types promote to the wider one. *)
Definition promoteTypes (a b : ScalarType) : ScalarType :=
  match a, b with
  | Bool, _ => b
  | _, Bool => a
  | _, _ =>
    if isFloatingType a then
      if isFloatingType b then wider a b else a
    else if isFloatingType b then b
    else if eqb (isSignedType a) (isSignedType b) then wider a b
    else
      match List.find (fun t => holds_range t a && holds_range t b)
                      [Char; Short; Int; Long] with
      | Some t => t
      | None => Long
      end
  end.

(** ** Scalars *)

(** A tagged value: exactly one of a boolean, a signed integer or a
    floating payload. *)
Inductive Scalar :=
  | ScalarBool (b : bool)
  | ScalarInt (v : Z)
  | ScalarDouble (f : spec_float).

(** The dtype tag of a scalar ([utils::get_scalar_dtype]). *)
Definition get_scalar_dtype (s : Scalar) : ScalarType :=
  match s with
  | ScalarBool _ => Bool
  | ScalarInt _ => Long
  | ScalarDouble _ => Double
  end.

Definition isIntegralScalar (s : Scalar) : bool :=
  match s with ScalarBool _ | ScalarInt _ => true | ScalarDouble _ => false end.

(** The integer value of a boolean or integer scalar (true is 1, false 0). *)
Definition scalar_value (s : Scalar) : Z :=
  match s with
  | ScalarBool b => Z.b2z b
  | ScalarInt v => v
  | ScalarDouble _ => 0
  end.

(** Modelled from the spec: [utils::promote_type_with_scalar] is defined in
    [scalar_utils.h], outside the kernels.  Spec 4.2: on top of the lattice,
    a boolean or integer scalar never widens an integer tensor whose dtype
    can represent the scalar's value; a floating scalar promotes an integer
    tensor to floating.  Every other combination follows the lattice on the
    tensor's dtype and the scalar's own dtype tag. *)
Definition promote_type_with_scalar (t : ScalarType) (s : Scalar) : ScalarType :=
  if isIntegralType t false && isIntegralScalar s
     && representable t (scalar_value s)
  then t
  else promoteTypes t (get_scalar_dtype s).

(** Modelled from the spec: [canCast] is defined in a runtime header outside
    the kernels.  Spec 6: widening and same-category casts are allowed;
    narrowing floating to integer, and signed to unsigned with loss, are
    disallowed; a floating or boolean output accepts every computation
    dtype. *)
Definition canCast (from to : ScalarType) : bool :=
  if isFloatingType to then true
  else match to with
       | Bool => true
       | _ =>
         negb (isFloatingType from)
         && negb (isSignedType from && negb (isSignedType to))
       end.

(** ** Element values and conversions *)

(** Element values are integers: the value itself for the integral dtypes,
    0 or 1 for [Bool], and the IEEE-754 bit pattern for [Float] and
    [Double]. *)

(** Bit pattern of a binary floating-point number of precision [prec] and
    exponent bound [emax]. *)
Definition float_bits (prec emax : Z) (f : spec_float) : Z :=
  let ebits := Z.log2 emax + 1 in
  let sign (s : bool) := Z.shiftl (Z.b2z s) (prec - 1 + ebits) in
  let ones := 2 ^ ebits - 1 in
  match f with
  | S754_zero s => sign s
  | S754_infinity s => Z.lor (sign s) (Z.shiftl ones (prec - 1))
  | S754_nan => Z.lor (Z.shiftl ones (prec - 1)) (2 ^ (prec - 2))
  | S754_finite s m e =>
    if Z.pos m <? 2 ^ (prec - 1)
    then Z.lor (sign s) (Z.pos m)
    else Z.lor (sign s)
           (Z.lor (Z.shiftl (e - emin prec emax + 1) (prec - 1))
                  (Z.pos m - 2 ^ (prec - 1)))
  end.

(** [static_cast<bool>] of an integral value: the nonzero test. *)
Definition to_bool (v : Z) : bool := negb (v =? 0).

(** [static_cast<CTYPE>(v)] of an integral value [v]: the nonzero test into
    [bool], wrap-around into the integer types, rounding to nearest into the
    floating types. *)
Definition static_cast (CTYPE : ScalarType) (v : Z) : Z :=
  match CTYPE with
  | Bool => Z.b2z (to_bool v)
  | Byte => v mod 2 ^ 8
  | Char => (v + 2 ^ 7) mod 2 ^ 8 - 2 ^ 7
  | Short => (v + 2 ^ 15) mod 2 ^ 16 - 2 ^ 15
  | Int => (v + 2 ^ 31) mod 2 ^ 32 - 2 ^ 31
  | Long => (v + 2 ^ 63) mod 2 ^ 64 - 2 ^ 63
  | Float => float_bits 24 128 (binary_normalize 24 128 v 0 false)
  | Double => float_bits 53 1024 (binary_normalize 53 1024 v 0 false)
  end.

(** ** The per-element function of op_bitwise_or.cpp *)

(** [template <typename CTYPE> CTYPE bitwise_or(CTYPE a, CTYPE b)]:
    [return a | b;], converted to the return type.  It is instantiated at
    the integer dtypes only. *)
Definition bitwise_or_generic (CTYPE : ScalarType) (a b : Z) : Z :=
  static_cast CTYPE (Z.lor a b).

(** [template <> bool bitwise_or<bool>(bool a, bool b)]: [return a || b;]. *)
Definition bitwise_or_bool (a b : bool) : bool := a || b.

(** Selection of the instantiation by the computation dtype. *)
Definition bitwise_or (CTYPE : ScalarType) (a b : Z) : Z :=
  match CTYPE with
  | Bool => Z.b2z (bitwise_or_bool (to_bool a) (to_bool b))
  | _ => bitwise_or_generic CTYPE a b
  end.

(** ** Tensors *)

Inductive TensorShapeDynamism := STATIC | DYNAMIC_BOUND | DYNAMIC_UNBOUND.

(** A tensor is a view over a buffer of bytes; [data_ptr] is [None] for the
    null pointer, which is valid for a tensor without elements.  Bytes are
    integers in [0, 256). *)
Record Tensor := mkTensor {
  sizes : list Z;
  scalar_type : ScalarType;
  data_ptr : option (list Z);
  shape_dynamism : TensorShapeDynamism
}.

(** Product of the dimensions of a shape. *)
Definition product (shape : list Z) : Z := foldr Z.mul 1 shape.

Definition numel (t : Tensor) : Z := product (sizes t).

Definition nbytes (t : Tensor) : Z := numel t * elementSize (scalar_type t).

Definition buffer_bytes (p : option (list Z)) : Z :=
  match p with
  | None => 0
  | Some buf => Z.of_nat (length buf)
  end.

(** Number of elements of the tensor's dtype its buffer can hold. *)
Definition capacity (t : Tensor) : Z :=
  buffer_bytes (data_ptr t) / elementSize (scalar_type t).

(** The invariant of the data model: the logical elements fit the buffer. *)
Definition valid (t : Tensor) : Prop := 0 <= nbytes t <= buffer_bytes (data_ptr t).

Definition with_sizes (t : Tensor) (new_sizes : list Z) : Tensor :=
  {| sizes := new_sizes; scalar_type := scalar_type t;
     data_ptr := data_ptr t; shape_dynamism := shape_dynamism t |}.

Definition with_data (t : Tensor) (p : option (list Z)) : Tensor :=
  {| sizes := sizes t; scalar_type := scalar_type t;
     data_ptr := p; shape_dynamism := shape_dynamism t |}.

(** The error kinds of an operator call.  The first four are the kinds of
    spec 7; [StorageUnavailable] is the fatal condition of spec 5, raised
    when the allocator cannot provide the storage a resize asks for. *)
Inductive Error :=
  | ShapeMismatch
  | UnsupportedCast
  | ResizeNotAllowed
  | UnsupportedDtype
  | StorageUnavailable.

(** ** Shape broadcaster *)

(** A pair of aligned dimension sizes is compatible. *)
Definition compatible (da db : Z) : bool :=
  (da =? db) || (da =? 1) || (db =? 1).

(** Modelled from the spec: the broadcasting helpers of [broadcast_util.h]
    are outside the kernels.  Spec 4.1, on shapes listed from the trailing
    dimension: a missing dimension counts as size 1, an incompatible pair
    stops the walk, the output size of a pair is [max da db]. *)
Fixpoint broadcast_trailing (ra rb : list Z) : option (list Z) :=
  match ra, rb with
  | [], [] => Some []
  | da :: ra', [] =>
    if compatible da 1
    then cons (Z.max da 1) <$> broadcast_trailing ra' []
    else None
  | [], db :: rb' =>
    if compatible 1 db
    then Some (Z.max 1 db :: (Z.max 1 <$> rb'))
    else None
  | da :: ra', db :: rb' =>
    if compatible da db
    then cons (Z.max da db) <$> broadcast_trailing ra' rb'
    else None
  end.

(** Stride-or-zero of an input for each output dimension, trailing first:
    a size-1 or missing dimension repeats (stride 0). *)
Fixpoint strides_trailing (rin : list Z) (rank : nat) (stride : Z) : list Z :=
  match rank with
  | O => []
  | S rank' =>
    match rin with
    | [] => 0 :: strides_trailing [] rank' stride
    | d :: rin' =>
      (if d =? 1 then 0 else stride) :: strides_trailing rin' rank' (stride * d)
    end
  end.

Definition broadcast_strides (shape out_shape : list Z) : list Z :=
  rev (strides_trailing (rev shape) (length out_shape) 1).

(** The transient result of comparing two shapes. *)
Record BroadcastPlan := mkPlan {
  plan_shape : list Z;
  plan_strides_a : list Z;
  plan_strides_b : list Z
}.

(** Modelled from the spec: [broadcast(shapeA, shapeB)] of spec 4.1. *)
Definition broadcast (shapeA shapeB : list Z) : Error + BroadcastPlan :=
  match broadcast_trailing (rev shapeA) (rev shapeB) with
  | None => inl ShapeMismatch
  | Some rout =>
    let out := rev rout in
    inr {| plan_shape := out;
           plan_strides_a := broadcast_strides shapeA out;
           plan_strides_b := broadcast_strides shapeB out |}
  end.

(** Size of the [i]-th dimension counted from the trailing one; a missing
    dimension counts as 1. *)
Definition dim_from_end (shape : list Z) (i : nat) : Z :=
  nth i (rev shape) 1.

(** ** Typed access to byte buffers *)

(** Little-endian bytes of a value, and back. *)
Fixpoint le_bytes (w : nat) (v : Z) : list Z :=
  match w with
  | O => []
  | S w' => v mod 256 :: le_bytes w' (v / 256)
  end.

Fixpoint le_value (bs : list Z) : Z :=
  match bs with
  | [] => 0
  | b :: bs' => b + 256 * le_value bs'
  end.

Definition encode (CTYPE : ScalarType) (v : Z) : list Z :=
  le_bytes (Z.to_nat (elementSize CTYPE)) v.

Definition decode (CTYPE : ScalarType) (bs : list Z) : Z :=
  let u := le_value bs in
  match CTYPE with
  | Bool => Z.b2z (to_bool u)
  | Byte | Float | Double => u
  | Char | Short | Int | Long =>
    if u <=? upper_bound CTYPE then u else u - 2 ^ (8 * elementSize CTYPE)
  end.

(** [p[i]] read through a pointer to [CTYPE]; [None] when the access leaves
    the buffer or goes through the null pointer. *)
Definition load (CTYPE : ScalarType) (p : option (list Z)) (i : Z) : option Z :=
  match p with
  | None => None
  | Some buf =>
    let w := elementSize CTYPE in
    if (0 <=? i) && ((i + 1) * w <=? Z.of_nat (length buf))
    then Some (decode CTYPE (take (Z.to_nat w) (drop (Z.to_nat (i * w)) buf)))
    else None
  end.

(** The buffer with the bytes of element [i] replaced by those of [v]. *)
Definition store_at (CTYPE : ScalarType) (buf : list Z) (i v : Z) : list Z :=
  let w := elementSize CTYPE in
  take (Z.to_nat (i * w)) buf ++ encode CTYPE v
  ++ drop (Z.to_nat ((i + 1) * w)) buf.

(** [p[i] = v] written through a pointer to [CTYPE]. *)
Definition store (CTYPE : ScalarType) (p : option (list Z)) (i v : Z)
  : option (option (list Z)) :=
  match p with
  | None => None
  | Some buf =>
    let w := elementSize CTYPE in
    if (0 <=? i) && ((i + 1) * w <=? Z.of_nat (length buf))
    then Some (Some (store_at CTYPE buf i v))
    else None
  end.

(** Element [i] of a tensor, read at the tensor's dtype. *)
Definition element (t : Tensor) (i : Z) : option Z :=
  load (scalar_type t) (data_ptr t) i.

(** The bytes that hold the logical elements of a tensor. *)
Definition contents (t : Tensor) : list Z :=
  take (Z.to_nat (nbytes t)) (default [] (data_ptr t)).

(** The bytes of element [i] of a buffer of elements of dtype [CTYPE]. *)
Definition element_bytes (CTYPE : ScalarType) (buf : list Z) (i : Z) : list Z :=
  take (Z.to_nat (elementSize CTYPE))
       (drop (Z.to_nat (i * elementSize CTYPE)) buf).

(** The buffer of a tensor, empty for the null pointer. *)
Definition tensor_bytes (t : Tensor) : list Z := default [] (data_ptr t).

(** A buffer holds bytes. *)
Definition bytes (buf : list Z) : Prop := Forall (fun b => 0 <= b < 256) buf.

(** [memcpy(dst, src, n)]: the first [n] bytes of [dst] become those of
    [src]; [None] when a pointer is null or a buffer is shorter than [n]. *)
Definition memcpy (dst src : option (list Z)) (n : Z) : option (option (list Z)) :=
  match dst, src with
  | Some d, Some s =>
    if (0 <=? n) && (n <=? Z.of_nat (length d)) && (n <=? Z.of_nat (length s))
    then Some (Some (take (Z.to_nat n) s ++ drop (Z.to_nat n) d))
    else None
  | _, _ => None
  end.

(** ** Runs of an operator *)

(** The accesses an operator makes to the tensors' buffers: a [memcpy] of
    [n] bytes, or the per-element function computing output position [i]. *)
Inductive Event :=
  | Memcpy (n : Z)
  | ElementFn (i : Z).

(** How a call ends: it returns the output; a check fails and aborts the
    call, which is recorded with the error kind and the output as it was
    when the check ran; or an access left a buffer, which valid tensors
    exclude. *)
Inductive Outcome :=
  | Ok (out : Tensor)
  | Failure (e : Error) (out : Tensor)
  | OutOfBounds.

Record Run := mkRun {
  trace : list Event;
  outcome : Outcome
}.

Definition failed (e : Error) (out : Tensor) : Run :=
  {| trace := []; outcome := Failure e out |}.

(** [ET_CHECK(cond)]: abort unless [cond] holds. *)
Definition ET_CHECK (cond : bool) (e : Error) (out : Tensor) (k : Run) : Run :=
  if cond then k else failed e out.

(** [ET_SWITCH_*(dtype, ...)]: abort unless the dtype is in the set. *)
Definition ET_SWITCH (in_set : bool) (out : Tensor) (k : Run) : Run :=
  ET_CHECK in_set UnsupportedDtype out k.

(** [ET_CHECK_SAME_SHAPE_AND_DTYPE2(a, b)]: abort unless the tensors have one
    shape and one dtype.  A difference of shape is reported as ShapeMismatch
    and a difference of dtype as UnsupportedCast, the copy having no
    conversion to offer. *)
Definition ET_CHECK_SAME_SHAPE_AND_DTYPE2 (a b : Tensor) (k : Run) : Run :=
  ET_CHECK (bool_decide (sizes a = sizes b)) ShapeMismatch b
    (ET_CHECK (ScalarType_eqb (scalar_type a) (scalar_type b)) UnsupportedCast b k).

(** The result of an applier, as the run that returns [out] with the
    written buffer. *)
Definition finish (out : Tensor) (r : list Event * option (option (list Z))) : Run :=
  {| trace := r.1;
     outcome := match r.2 with
                | Some p => Ok (with_data out p)
                | None => OutOfBounds
                end |}.

(** A run that failed wrote nothing: it has no event, and its output is the
    one the call received when the shape stage [resized] failed, or the one
    the shape stage returned when a later check failed. *)
Definition fails_before_writing
    (resized : Error + Tensor) (out : Tensor) (r : Run) : Prop :=
  forall e out',
    outcome r = Failure e out' ->
    trace r = []
    /\ ((resized = inl e /\ out' = out)
        \/ (resized = inr out' /\ (e = UnsupportedCast \/ e = UnsupportedDtype))).

(** What the checks of an entry point decide about its run.  [resized] is
    the result of the shape stage on the output the call received,
    [cast_ok] the verdict of the cast check and [dtypes_ok] that of the
    dtype switches.  A check that fails ends the run there: no event, the
    kind of that check, and the output as it stood when the check ran.  A
    run whose checks all pass does not fail, and only such a run has an
    event. *)
Definition checks_decide
    (resized : Error + Tensor) (cast_ok dtypes_ok : bool)
    (out : Tensor) (r : Run) : Prop :=
  match resized with
  | inl e => r = failed e out
  | inr out1 =>
    if negb cast_ok then r = failed UnsupportedCast out1
    else if negb dtypes_ok then r = failed UnsupportedDtype out1
    else forall e out', outcome r <> Failure e out'
  end
  /\ (trace r <> [] ->
      exists out1, resized = inr out1 /\ cast_ok = true /\ dtypes_ok = true).

(** ** Elementwise appliers *)

(** [for (i = first; i < first + n; ++i) out = body(i, out)], stopping at
    the first access out of a buffer. *)
Fixpoint for_each (body : Z -> option (list Z) -> option (option (list Z)))
    (first : Z) (n : nat) (out : option (list Z))
  : list Event * option (option (list Z)) :=
  match n with
  | O => ([], Some out)
  | S n' =>
    match body first out with
    | None => ([ElementFn first], None)
    | Some out' =>
      let r := for_each body (first + 1) n' out' in
      (ElementFn first :: r.1, r.2)
    end
  end.

(** Modelled from the spec: [apply_unary_map_fn] of [functional_util.h]:
    [data_out[i] = fn(data_in[i])] for every [i] below [size]. *)
Definition apply_unary_map_fn (fn : Z -> Z) (CTYPE_IN CTYPE_OUT : ScalarType)
    (data_in data_out : option (list Z)) (size : Z)
  : list Event * option (option (list Z)) :=
  for_each
    (fun i out =>
       match load CTYPE_IN data_in i with
       | None => None
       | Some v => store CTYPE_OUT out i (fn v)
       end)
    0 (Z.to_nat size) data_out.

(** Coordinates of a linear position in a shape, row-major (last dimension
    fastest), listed from the trailing dimension. *)
Fixpoint delinearize_trailing (rshape : list Z) (lin : Z) : list Z :=
  match rshape with
  | [] => []
  | d :: rshape' => lin mod d :: delinearize_trailing rshape' (lin / d)
  end.

Definition delinearize (shape : list Z) (lin : Z) : list Z :=
  rev (delinearize_trailing (rev shape) lin).

(** Source position of an input for an output multi-index. *)
Fixpoint source_offset (index strides : list Z) : Z :=
  match index, strides with
  | i :: index', s :: strides' => i * s + source_offset index' strides'
  | _, _ => 0
  end.

(** Modelled from the spec: [apply_binary_elementwise_fn] of
    [broadcast_util.h], spec 4.4: every multi-index of the output's shape in
    row-major order; each input is read where its stride-or-zero sends the
    multi-index; the result goes to the linear position of the output. *)
Definition apply_binary_elementwise_fn (fn : Z -> Z -> Z)
    (CTYPE_A CTYPE_B CTYPE_OUT : ScalarType) (a b out : Tensor)
  : list Event * option (option (list Z)) :=
  let strides_a := broadcast_strides (sizes a) (sizes out) in
  let strides_b := broadcast_strides (sizes b) (sizes out) in
  for_each
    (fun i out_data =>
       let index := delinearize (sizes out) i in
       match load CTYPE_A (data_ptr a) (source_offset index strides_a),
             load CTYPE_B (data_ptr b) (source_offset index strides_b) with
       | Some val_a, Some val_b => store CTYPE_OUT out_data i (fn val_a val_b)
       | _, _ => None
       end)
    0 (Z.to_nat (numel out)) (data_ptr out).

(** An allocator is honest when the storage it returns has the size it was
    asked for, or more. *)
Definition honest (allocator : Z -> option (list Z)) : Prop :=
  forall n buf, allocator n = Some buf -> n <= Z.of_nat (length buf).

(** ** Sample tensors *)

(** An allocator that never provides storage. *)
Definition no_storage : Z -> option (list Z) := fun _ => None.

(** Two float32 zeros. *)
Definition float_pair : Tensor :=
  mkTensor [2] Float (Some [0; 0; 0; 0; 0; 0; 0; 0]) STATIC.

(** The int8 values -1 and 3, as a 2 x 1 tensor. *)
Definition char_column : Tensor := mkTensor [2; 1] Char (Some [255; 3]) STATIC.

(** The int8 values -1 and 3. *)
Definition char_pair : Tensor := mkTensor [2] Char (Some [255; 3]) STATIC.

(** The int16 values 1, 256 and 4. *)
Definition short_row : Tensor :=
  mkTensor [3] Short (Some [1; 0; 0; 1; 4; 0]) STATIC.

(** The int16 values 1 and 256, as a 2 x 1 tensor. *)
Definition short_column : Tensor :=
  mkTensor [2; 1] Short (Some [1; 0; 0; 1]) STATIC.

(** A bounded int32 output of four elements. *)
Definition int_out_4 : Tensor :=
  mkTensor [4] Int (Some (replicate 16 7)) DYNAMIC_BOUND.

(** A bounded int32 output of eight elements. *)
Definition int_out_8 : Tensor :=
  mkTensor [8] Int (Some (replicate 32 7)) DYNAMIC_BOUND.

(** A bounded int8 output of four elements. *)
Definition char_out_4 : Tensor :=
  mkTensor [4] Char (Some [9; 9; 9; 9]) DYNAMIC_BOUND.

(** A tensor without elements, and without a buffer. *)
Definition empty_char : Tensor := mkTensor [0; 3] Char None STATIC.

(** The tensors of the tangent test: 2 x 5 ones in float32, 2 x 5 zeros in
    int32. *)
Definition float_ones_2_5 : Tensor :=
  mkTensor [2; 5] Float (Some (concat (replicate 10 [0; 0; 128; 63]))) STATIC.


(** [TensorFactory<dtype>::zeros(shape, dynamism)] of the tests. *)
Definition zeros (dtype : ScalarType) (shape : list Z)
    (dynamism : TensorShapeDynamism) : Tensor :=
  mkTensor shape dtype
    (Some (replicate (Z.to_nat (product shape * elementSize dtype)) 0))
    dynamism.

(** The boolean tensors of the broadcast scenario. *)
Definition bool_row : Tensor := mkTensor [2] Bool (Some [0; 1]) STATIC.

Definition bool_1_2 : Tensor := mkTensor [1; 2] Bool (Some [0; 1]) STATIC.

Definition bool_out_1_2 : Tensor := mkTensor [1; 2] Bool (Some [0; 0]) STATIC.

Section Engine.

Set Default Proof Using "Type".

(** The external allocator: asked for a number of bytes, it returns fresh
    backing storage or nothing. *)
Variable request_storage : Z -> option (list Z).

(** ** Tensor resizer *)

(** Modelled from the spec: [resize_tensor] is defined in the runtime,
    outside the kernels.  Spec 4.3: a STATIC tensor accepts only its own
    shape; a DYNAMIC_BOUND tensor accepts any shape within its capacity; a
    DYNAMIC_UNBOUND tensor accepts any shape, asking the allocator for
    storage beyond its capacity.  Only the logical shape changes. *)
Definition resize_tensor (t : Tensor) (new_sizes : list Z) : Error + Tensor :=
  match shape_dynamism t with
  | STATIC =>
    if decide (new_sizes = sizes t) then inr t else inl ResizeNotAllowed
  | DYNAMIC_BOUND =>
    if product new_sizes <=? capacity t
    then inr (with_sizes t new_sizes)
    else inl ResizeNotAllowed
  | DYNAMIC_UNBOUND =>
    if product new_sizes <=? capacity t
    then inr (with_sizes t new_sizes)
    else
      match request_storage (product new_sizes * elementSize (scalar_type t)) with
      | Some buf => inr (with_data (with_sizes t new_sizes) (Some buf))
      | None => inl StorageUnavailable
      end
  end.

(** Modelled from the spec: [resize_to_broadcast_target_size] of
    [broadcast_util.h]: the broadcast shape of the two inputs, applied to
    the output by the resizer.  The entry point takes no result from it: a
    failure aborts within the helper, with the kinds of spec 7. *)
Definition resize_to_broadcast_target_size (a b out : Tensor) : Error + Tensor :=
  match broadcast (sizes a) (sizes b) with
  | inl e => inl e
  | inr plan => resize_tensor out (plan_shape plan)
  end.

(** ** Operator entry points *)

(** [bitwise_or_Tensor_out] of op_bitwise_or.cpp. *)
Definition bitwise_or_Tensor_out (a b out : Tensor) : Run :=
  (* Determine output size and resize for dynamic shapes *)
  match resize_to_broadcast_target_size a b out with
  | inl e => failed e out
  | inr out =>
    let a_type := scalar_type a in
    let b_type := scalar_type b in
    let common_type := promoteTypes a_type b_type in
    let out_type := scalar_type out in
    ET_CHECK (canCast common_type out_type) UnsupportedCast out (
    ET_SWITCH (INT_TYPES_AND_Bool a_type) out (
    ET_SWITCH (INT_TYPES_AND_Bool b_type) out (
    ET_SWITCH (INT_TYPES_AND_Bool common_type) out (
    ET_SWITCH (REAL_TYPES_AND_Bool out_type) out (
      finish out
        (apply_binary_elementwise_fn
           (fun val_a val_b =>
              let a_casted := static_cast common_type val_a in
              let b_casted := static_cast common_type val_b in
              let value := bitwise_or common_type a_casted b_casted in
              static_cast out_type value)
           a_type b_type out_type a b out))))))
  end.

(** [ET_EXTRACT_SCALAR(b, val_b)] at the [CTYPE_B] of the scalar's tag. *)
Definition extract_scalar (b : Scalar) : Z := scalar_value b.

(** [bitwise_or_Scalar_out] of op_bitwise_or.cpp. *)
Definition bitwise_or_Scalar_out (a : Tensor) (b : Scalar) (out : Tensor) : Run :=
  (* Determine output size and resize for dynamic shapes *)
  match resize_tensor out (sizes a) with
  | inl e => failed e out
  | inr out =>
    let a_type := scalar_type a in
    let b_type := get_scalar_dtype b in
    let common_type := promote_type_with_scalar a_type b in
    let out_type := scalar_type out in
    ET_CHECK (canCast common_type out_type) UnsupportedCast out (
    ET_SWITCH (INT_TYPES_AND_Bool a_type) out (
    ET_SWITCH (SCALAR_OBJ_INTB_TYPES b_type) out (
      let val_b := extract_scalar b in
    ET_SWITCH (INT_TYPES_AND_Bool common_type) out (
    ET_SWITCH (REAL_TYPES_AND_Bool out_type) out (
      finish out
        (apply_unary_map_fn
           (fun val_a =>
              let a_casted := static_cast common_type val_a in
              let b_casted := static_cast common_type val_b in
              let value := bitwise_or common_type a_casted b_casted in
              static_cast out_type value)
           a_type out_type (data_ptr a) (data_ptr out) (numel out)))))))
  end.

(** [detach_copy_out] of op_detach_copy.cpp. *)
Definition detach_copy_out (self out : Tensor) : Run :=
  match resize_tensor out (sizes self) with
  | inl e => failed e out
  | inr out =>
    ET_CHECK_SAME_SHAPE_AND_DTYPE2 self out (
      if 0 <? nbytes self then
        {| trace := [Memcpy (nbytes self)];
           outcome :=
             match memcpy (data_ptr out) (data_ptr self) (nbytes self) with
             | Some p => Ok (with_data out p)
             | None => OutOfBounds
             end |}
      else {| trace := []; outcome := Ok out |})
  end.

(** The per-element math of the tangent operator, from an element of the
    input's dtype to an element of the output's dtype. *)
Variable tan_element : ScalarType -> ScalarType -> Z -> Z.

(** Modelled from the spec: [tan_out], the kernel that op_tan_test.cpp
    exercises, is not among the kernels at hand.  It is the unary entry of
    spec 2 and 6 for a strictly-floating operator, with the steps in the
    order of the entry points above: the output takes the input's shape,
    the input's dtype must cast into the output's, the input is of any real
    or boolean dtype and the output of a floating dtype. *)
Definition tan_out (self out : Tensor) : Run :=
  match resize_tensor out (sizes self) with
  | inl e => failed e out
  | inr out =>
    let in_type := scalar_type self in
    let out_type := scalar_type out in
    ET_CHECK (canCast in_type out_type) UnsupportedCast out (
    ET_SWITCH (REAL_TYPES_AND_Bool in_type) out (
    ET_SWITCH (FLOAT_TYPES out_type) out (
      finish out
        (apply_unary_map_fn (tan_element in_type out_type)
           in_type out_type (data_ptr self) (data_ptr out) (numel out)))))
  end.


(** ** Properties of the dtype rules *)

Example promote_bool_int32 : promoteTypes Bool Int = Int.
Proof. reflexivity. Qed.

Example promote_int32_float32 : promoteTypes Int Float = Float.
Proof. reflexivity. Qed.

Example promote_uint8_int8 : promoteTypes Byte Char = Short.
Proof. reflexivity. Qed.

Lemma promoteTypes_comm (a b : ScalarType) : promoteTypes a b = promoteTypes b a.
Proof. destruct a, b; reflexivity. Qed.

Lemma ScalarType_eqb_eq (a b : ScalarType) : ScalarType_eqb a b = true <-> a = b.
Proof. destruct a, b; simpl; split; congruence. Qed.

Lemma to_bool_b2z (b : bool) : to_bool (Z.b2z b) = b.
Proof. destruct b; reflexivity. Qed.

(** C2: at the boolean computation dtype the per-element function of
    bitwise-or is the logical OR of its operands: on booleans [a] and [b] it
    returns [a || b], which is true iff [a] is true or [b] is true; and
    whatever integers carry the operands, it combines their truth values
    rather than their bits. *)
Theorem bitwise_or_bool_logical (a b : bool) :
  bitwise_or Bool (Z.b2z a) (Z.b2z b) = Z.b2z (a || b)
  /\ (bitwise_or_bool a b = true <-> a = true \/ b = true)
  /\ (forall x y : Z, bitwise_or Bool x y = Z.b2z (to_bool x || to_bool y)).
Proof.
  split; [| split].
  - unfold bitwise_or, bitwise_or_bool. by rewrite !to_bool_b2z.
  - unfold bitwise_or_bool. apply orb_true_iff.
  - reflexivity.
Qed.

Example bitwise_or_bool_2_4 : bitwise_or Bool 2 4 = 1 /\ bitwise_or Int 2 4 = 6.
Proof. split; reflexivity. Qed.

(** C4: for a tensor of an integer dtype, promotion with a boolean or
    integer scalar whose value the dtype can represent returns the tensor's
    own dtype, and promotion with a floating scalar returns a floating
    dtype. *)
Theorem promote_type_with_scalar_integer_tensor (t : ScalarType) (s : Scalar) :
  isIntegralType t false = true ->
  (isIntegralScalar s = true ->
   representable t (scalar_value s) = true ->
   promote_type_with_scalar t s = t)
  /\ (isIntegralScalar s = false ->
      isFloatingType (promote_type_with_scalar t s) = true).
Proof.
  intros Ht. split.
  - intros Hs Hr. unfold promote_type_with_scalar. by rewrite Ht, Hs, Hr.
  - intros Hs. unfold promote_type_with_scalar. rewrite Hs, andb_false_r. simpl.
    destruct s as [b | v | f]; [discriminate | discriminate |].
    destruct t; try discriminate; reflexivity.
Qed.

(** ** Properties of the shape broadcaster *)

Lemma compatible_1_l (d : Z) : compatible 1 d = true.
Proof. unfold compatible. simpl. by rewrite orb_true_r. Qed.

Lemma compatible_1_r (d : Z) : compatible d 1 = true.
Proof. unfold compatible. simpl. by rewrite !orb_true_r. Qed.

Lemma nth_nil_1 (i : nat) : nth i (@nil Z) 1 = 1.
Proof. by destruct i. Qed.

Lemma nth_fmap_max_1 (l : list Z) (i : nat) :
  nth i (Z.max 1 <$> l) 1 = Z.max 1 (nth i l 1).
Proof.
  revert i. induction l as [| d l IH]; intros [| i]; simpl; try done.
Qed.

Lemma broadcast_trailing_shape (ra rb ro : list Z) :
  broadcast_trailing ra rb = Some ro ->
  length ro = (length ra `max` length rb)%nat
  /\ forall i, nth i ro 1 = Z.max (nth i ra 1) (nth i rb 1).
Proof.
  revert rb ro. induction ra as [| da ra IH]; intros [| db rb] ro;
    cbn [broadcast_trailing].
  - intros [= <-]. split; [done |]. intros i. by rewrite nth_nil_1.
  - rewrite compatible_1_l. intros [= <-]. split.
    + cbn [length]. by rewrite length_fmap.
    + intros i. rewrite nth_nil_1. destruct i as [| i]; cbn [nth]; [done |].
      apply nth_fmap_max_1.
  - rewrite compatible_1_r.
    destruct (broadcast_trailing ra []) as [ro' |] eqn:E; [| done].
    intros [= <-]. destruct (IH [] ro' E) as [Hlen Hnth]. split.
    + cbn [length] in *. lia.
    + intros i. rewrite nth_nil_1. destruct i as [| i]; cbn [nth]; [done |].
      by rewrite Hnth, nth_nil_1.
  - destruct (compatible da db); [| done].
    destruct (broadcast_trailing ra rb) as [ro' |] eqn:E; [| done].
    intros [= <-]. destruct (IH rb ro' E) as [Hlen Hnth]. split.
    + cbn [length]. lia.
    + intros [| i]; cbn [nth]; [done | apply Hnth].
Qed.

Lemma broadcast_trailing_is_Some (ra rb : list Z) :
  is_Some (broadcast_trailing ra rb)
  <-> forall i, compatible (nth i ra 1) (nth i rb 1) = true.
Proof.
  revert rb. induction ra as [| da ra IH]; intros [| db rb];
    cbn [broadcast_trailing].
  - split; [| by eauto]. intros _ i. by rewrite nth_nil_1.
  - rewrite compatible_1_l. split; [| by eauto].
    intros _ i. rewrite nth_nil_1. apply compatible_1_l.
  - rewrite compatible_1_r. rewrite fmap_is_Some, IH. split.
    + intros H i. rewrite nth_nil_1. apply compatible_1_r.
    + intros H i. rewrite nth_nil_1. apply compatible_1_r.
  - destruct (compatible da db) eqn:C.
    + rewrite fmap_is_Some, IH. split.
      * intros H [| i]; [done | apply H].
      * intros H i. apply (H (S i)).
    + split; [by intros [? ?] |]. intros H. specialize (H 0%nat).
      cbn [nth] in H. congruence.
Qed.

Lemma compatible_true (da db : Z) :
  compatible da db = true <-> da = db \/ da = 1 \/ db = 1.
Proof.
  unfold compatible. rewrite !orb_true_iff, !Z.eqb_eq.
  split; [intros [[H | H] | H] | intros [H | [H | H]]]; auto.
Qed.

Lemma compatible_false (da db : Z) :
  compatible da db = false <-> da <> db /\ da <> 1 /\ db <> 1.
Proof.
  unfold compatible. rewrite !orb_false_iff, !Z.eqb_neq.
  split; [intros [[H1 H2] H3] | intros (H1 & H2 & H3)]; auto.
Qed.

(** C3: broadcasting two shapes aligns them from the trailing dimension,
    a missing dimension counting as size 1.  It succeeds iff at every
    aligned position the sizes are equal or one of them is 1; the output
    shape then has rank max(rank A, rank B) and, at every position, the
    maximum of the aligned pair; any incompatible position yields
    ShapeMismatch and no shape at all. *)
Theorem broadcast_aligned (A B : list Z) :
  ((exists plan, broadcast A B = inr plan)
   <-> forall i, dim_from_end A i = dim_from_end B i
                 \/ dim_from_end A i = 1 \/ dim_from_end B i = 1)
  /\ (forall plan, broadcast A B = inr plan ->
      length (plan_shape plan) = (length A `max` length B)%nat
      /\ forall i, dim_from_end (plan_shape plan) i
                   = Z.max (dim_from_end A i) (dim_from_end B i))
  /\ ((exists i, dim_from_end A i <> dim_from_end B i
                 /\ dim_from_end A i <> 1 /\ dim_from_end B i <> 1) ->
      broadcast A B = inl ShapeMismatch).
Proof.
  unfold broadcast, dim_from_end.
  pose proof (broadcast_trailing_is_Some (rev A) (rev B)) as HS.
  destruct (broadcast_trailing (rev A) (rev B)) as [ro |] eqn:E.
  - apply broadcast_trailing_shape in E as [Hlen Hnth].
    destruct HS as [HS _]. specialize (HS (mk_is_Some _ _ eq_refl)).
    split; [| split].
    + split; [| by eauto]. intros _ i. apply compatible_true, HS.
    + intros plan [= <-]. simpl. rewrite rev_involutive.
      rewrite length_rev, Hlen, !length_rev. done.
    + intros (i & H1 & H2 & H3).
      destruct (proj1 (compatible_true _ _) (HS i)) as [? | [? | ?]]; done.
  - destruct HS as [_ HS]. split; [| split].
    + split; [by intros [? ?] |]. intros H.
      destruct HS as [? HS]; [| done]. intros i. apply compatible_true, H.
    + done.
    + done.
Qed.

(** ** Properties of the tensor resizer *)

Lemma elementSize_pos (t : ScalarType) : 0 < elementSize t.
Proof. destruct t; reflexivity. Qed.

Lemma buffer_bytes_nonneg (p : option (list Z)) : 0 <= buffer_bytes p.
Proof. destruct p; simpl; lia. Qed.

Lemma capacity_nonneg (t : Tensor) : 0 <= capacity t.
Proof.
  unfold capacity. apply Z.div_pos;
    [apply buffer_bytes_nonneg | apply elementSize_pos].
Qed.

Lemma capacity_fits (t : Tensor) (n : Z) :
  n <= capacity t -> n * elementSize (scalar_type t) <= buffer_bytes (data_ptr t).
Proof.
  unfold capacity. intros H.
  pose proof (elementSize_pos (scalar_type t)) as Hw.
  pose proof (Z.mul_div_le (buffer_bytes (data_ptr t)) _ Hw). nia.
Qed.

Lemma resize_tensor_inr (t t' : Tensor) (target : list Z) :
  resize_tensor t target = inr t' ->
  sizes t' = target /\ scalar_type t' = scalar_type t
  /\ shape_dynamism t' = shape_dynamism t.
Proof.
  unfold resize_tensor. intros H.
  repeat case_match; simplify_eq /=; done.
Qed.

Lemma resize_tensor_within_capacity (t t' : Tensor) (target : list Z) :
  resize_tensor t target = inr t' ->
  product target <= capacity t ->
  data_ptr t' = data_ptr t.
Proof.
  unfold resize_tensor. intros H Hc.
  repeat case_match; simplify_eq /=; try done; lia.
Qed.

Lemma resize_tensor_fits (t t' : Tensor) (target : list Z) :
  honest request_storage ->
  nbytes t <= buffer_bytes (data_ptr t) ->
  resize_tensor t target = inr t' ->
  nbytes t' <= buffer_bytes (data_ptr t').
Proof.
  unfold resize_tensor, nbytes, numel. intros Hh Hv H.
  repeat case_match; simplify_eq /=; try done.
  - by apply capacity_fits, Z.leb_le.
  - by apply capacity_fits, Z.leb_le.
  - by eapply Hh.
Qed.

(** C5: a STATIC tensor is resized successfully iff the target shape is
    its current shape; a DYNAMIC_BOUND tensor iff the product of the target
    dimensions is at most its capacity, and then only its logical shape
    changes: dtype, buffer and dynamism stay as they were.  A refused
    resize reports ResizeNotAllowed. *)
Theorem resize_tensor_static_and_bound (t : Tensor) (target : list Z) :
  (shape_dynamism t = STATIC ->
   ((exists t', resize_tensor t target = inr t') <-> target = sizes t)
   /\ (target = sizes t -> resize_tensor t target = inr t)
   /\ (target <> sizes t -> resize_tensor t target = inl ResizeNotAllowed))
  /\ (shape_dynamism t = DYNAMIC_BOUND ->
      ((exists t', resize_tensor t target = inr t')
       <-> product target <= capacity t)
      /\ (product target <= capacity t ->
          resize_tensor t target
          = inr {| sizes := target; scalar_type := scalar_type t;
                   data_ptr := data_ptr t; shape_dynamism := DYNAMIC_BOUND |})
      /\ (capacity t < product target ->
          resize_tensor t target = inl ResizeNotAllowed)).
Proof.
  unfold resize_tensor, with_sizes. split; intros ->.
  - destruct (decide (target = sizes t)) as [-> | Hne].
    + split; [split; eauto |]. split; done.
    + split; [split; [by intros [? ?] | done] |]. split; done.
  - destruct (Z.leb_spec (product target) (capacity t)).
    + split; [split; eauto |]. split; [done | lia].
    + split; [split; [by intros [? ?] | lia] |]. split; [lia | done].
Qed.

(** ** Properties of typed access *)

Section Splice.

Context {A : Type}.
Implicit Types d new tl : list A.

Lemma slice_splice_same d new (off : nat) :
  (off <= length d)%nat ->
  take (length new) (drop off (take off d ++ new ++ drop (off + length new) d))
  = new.
Proof.
  intros H. rewrite drop_app_length' by (rewrite length_take; lia).
  by rewrite take_app_length.
Qed.

Lemma slice_splice_before d tl (off a len : nat) :
  (a + len <= off)%nat -> (off <= length d)%nat ->
  take len (drop a (take off d ++ tl)) = take len (drop a d).
Proof.
  intros H1 H2. rewrite !take_drop_commute. f_equal.
  rewrite take_app_le by (rewrite length_take; lia).
  rewrite take_take. f_equal. lia.
Qed.

Lemma slice_splice_after d new (off a : nat) :
  (off + length new <= a)%nat -> (off <= length d)%nat ->
  drop a (take off d ++ new ++ drop (off + length new) d) = drop a d.
Proof.
  intros H1 H2. rewrite app_assoc.
  rewrite drop_app_ge by (rewrite length_app, length_take; lia).
  rewrite length_app, length_take, drop_drop. f_equal. lia.
Qed.

End Splice.

Lemma length_le_bytes (w : nat) (v : Z) : length (le_bytes w v) = w.
Proof.
  revert v. induction w as [| w IH]; intros v; simpl; [done | by rewrite IH].
Qed.

Lemma length_encode (T : ScalarType) (v : Z) :
  Z.of_nat (length (encode T v)) = elementSize T.
Proof. unfold encode. rewrite length_le_bytes. destruct T; reflexivity. Qed.

Lemma le_value_le_bytes (w : nat) (v : Z) :
  le_value (le_bytes w v) = v mod 256 ^ Z.of_nat w.
Proof.
  revert v. induction w as [| w IH]; intros v.
  - simpl. by rewrite Z.mod_1_r.
  - cbn [le_bytes le_value]. rewrite IH.
    rewrite Nat2Z.inj_succ, Z.pow_succ_r by lia.
    rewrite Z.rem_mul_r by lia. done.
Qed.

Lemma le_value_bound (bs : list Z) :
  bytes bs -> 0 <= le_value bs < 256 ^ Z.of_nat (length bs).
Proof.
  induction 1 as [| b bs Hb _ IH]; cbn [le_value length].
  - simpl. lia.
  - rewrite Nat2Z.inj_succ, Z.pow_succ_r by lia. lia.
Qed.

Lemma signed_wrap (u M H : Z) :
  0 <= u < M -> 0 <= H < M ->
  (if (if u <=? H then u else u - M) mod M <=? H
   then (if u <=? H then u else u - M) mod M
   else (if u <=? H then u else u - M) mod M - M)
  = (if u <=? H then u else u - M).
Proof.
  intros Hu HH.
  assert ((if u <=? H then u else u - M) mod M = u) as ->.
  { destruct (Z.leb_spec u H).
    - apply Z.mod_small. lia.
    - symmetry. apply (Z.mod_unique _ _ (-1)); lia. }
  done.
Qed.

(** Writing back a value that was read gives a buffer that reads the
    same. *)
Lemma decode_encode_decode (T : ScalarType) (bs : list Z) :
  bytes bs -> Z.of_nat (length bs) = elementSize T ->
  decode T (encode T (decode T bs)) = decode T bs.
Proof.
  intros Hb Hl. pose proof (le_value_bound bs Hb) as Hu.
  unfold decode, encode. rewrite !le_value_le_bytes.
  replace (Z.of_nat (length bs)) with (elementSize T) in Hu by done.
  rewrite Z2Nat.id by (destruct T; done).
  destruct T; cbn [elementSize upper_bound] in *.
  all: try (rewrite Z.mod_small by lia; done).
  all: try (apply signed_wrap; lia).
  by destruct (to_bool (le_value bs)).
Qed.

Lemma load_Some (T : ScalarType) (buf : list Z) (i : Z) :
  0 <= i -> (i + 1) * elementSize T <= Z.of_nat (length buf) ->
  load T (Some buf) i
  = Some (decode T (take (Z.to_nat (elementSize T))
                      (drop (Z.to_nat (i * elementSize T)) buf))).
Proof.
  intros H0 H1. unfold load.
  by rewrite !(proj2 (Z.leb_le _ _)) by lia.
Qed.

Lemma store_Some (T : ScalarType) (buf : list Z) (i v : Z) :
  0 <= i -> (i + 1) * elementSize T <= Z.of_nat (length buf) ->
  store T (Some buf) i v = Some (Some (store_at T buf i v)).
Proof.
  intros H0 H1. unfold store.
  by rewrite !(proj2 (Z.leb_le _ _)) by lia.
Qed.

Section Store.

Variable T : ScalarType.
Variables (buf : list Z) (i v : Z).
Hypothesis Hi : 0 <= i.
Hypothesis Hfit : (i + 1) * elementSize T <= Z.of_nat (length buf).

Lemma store_at_length : length (store_at T buf i v) = length buf.
Proof using Type*.
  pose proof (elementSize_pos T). pose proof (length_encode T v).
  unfold store_at. rewrite !length_app, length_take, length_drop. lia.
Qed.

Lemma load_store_same :
  load T (Some (store_at T buf i v)) i = Some (decode T (encode T v)).
Proof using Type*.
  pose proof (elementSize_pos T) as Hw. pose proof (length_encode T v) as He.
  rewrite load_Some by (rewrite ?store_at_length; lia). do 2 f_equal.
  unfold store_at.
  replace (Z.to_nat (elementSize T)) with (length (encode T v)) by lia.
  replace (Z.to_nat ((i + 1) * elementSize T))
    with (Z.to_nat (i * elementSize T) + length (encode T v))%nat by lia.
  assert (0 <= i * elementSize T) by nia.
  apply slice_splice_same. lia.
Qed.

Lemma load_store_other (j : Z) :
  0 <= j -> j <> i ->
  load T (Some (store_at T buf i v)) j = load T (Some buf) j.
Proof using Type*.
  intros Hj Hne.
  pose proof (elementSize_pos T) as Hw. pose proof (length_encode T v) as He.
  unfold load. rewrite store_at_length.
  destruct ((0 <=? j) && ((j + 1) * elementSize T <=? Z.of_nat (length buf)))
    eqn:C; [| done].
  apply andb_true_iff in C as [_ C%Z.leb_le]. do 2 f_equal. unfold store_at.
  destruct (Z.lt_ge_cases j i).
  - assert (j * elementSize T + elementSize T <= i * elementSize T) by nia.
    assert (0 <= j * elementSize T) by nia.
    apply slice_splice_before; lia.
  - f_equal.
    replace (Z.to_nat ((i + 1) * elementSize T))
      with (Z.to_nat (i * elementSize T) + length (encode T v))%nat by lia.
    assert (i * elementSize T + elementSize T <= j * elementSize T) by nia.
    assert (0 <= i * elementSize T) by nia.
    apply slice_splice_after; lia.
Qed.

End Store.

(** ** Properties of the appliers *)

Lemma for_each_trace body (first : Z) (n : nat) out p :
  (for_each body first n out).2 = Some p ->
  (for_each body first n out).1 = ElementFn <$> seqZ first (Z.of_nat n).
Proof.
  revert first out. induction n as [| n IH]; intros first out; cbn [for_each].
  - done.
  - destruct (body first out) as [out' |]; [| done]. cbn [fst snd].
    intros H. rewrite (IH _ _ H), (seqZ_cons first) by lia.
    cbn [fmap list_fmap]. replace (Z.pred (Z.of_nat (S n))) with (Z.of_nat n) by lia.
    by replace (Z.succ first) with (first + 1) by lia.
Qed.

Lemma apply_unary_map_fn_trace fn CIN COUT data_in data_out size p :
  (apply_unary_map_fn fn CIN COUT data_in data_out size).2 = Some p ->
  (apply_unary_map_fn fn CIN COUT data_in data_out size).1
  = ElementFn <$> seqZ 0 size.
Proof.
  unfold apply_unary_map_fn. intros H. rewrite (for_each_trace _ _ _ _ _ H).
  destruct (Z.le_gt_cases 0 size).
  - by rewrite Z2Nat.id.
  - replace (Z.to_nat size) with 0%nat by lia. by rewrite !seqZ_nil by lia.
Qed.

Lemma for_each_identity (T : ScalarType) (src : list Z) (k : nat) :
  forall (first : Z) (d : list Z),
    bytes src -> 0 <= first ->
    (first + Z.of_nat k) * elementSize T <= Z.of_nat (length src) ->
    (first + Z.of_nat k) * elementSize T <= Z.of_nat (length d) ->
    exists d',
      (for_each
         (fun i out =>
            match load T (Some src) i with
            | None => None
            | Some v => store T out i v
            end) first k (Some d)).2 = Some (Some d')
      /\ length d' = length d
      /\ (forall j, first <= j < first + Z.of_nat k ->
           load T (Some d') j = load T (Some src) j)
      /\ (forall j, 0 <= j < first ->
           load T (Some d') j = load T (Some d) j).
Proof.
  pose proof (elementSize_pos T) as Hw.
  induction k as [| k IH]; intros first d Hb H0 Hsrc Hd; cbn [for_each].
  - exists d. split; [done |]. split; [done |]. split; [intros; lia | done].
  - rewrite load_Some by nia. rewrite store_Some by nia.
    set (v := decode T _). set (d1 := store_at T d first v).
    assert (length d1 = length d) as Hl1 by (apply store_at_length; nia).
    destruct (IH (first + 1) d1) as (d' & Hrun & Hl & Hnew & Hold);
      [done | lia | nia | rewrite Hl1; nia |].
    exists d'. cbn [snd]. split; [done |]. split; [congruence |]. split.
    + intros j Hj. destruct (decide (j = first)) as [-> | Hne].
      * rewrite Hold by lia. unfold d1. rewrite load_store_same by nia.
        rewrite load_Some by nia. f_equal. apply decode_encode_decode.
        -- by apply Forall_take, Forall_drop.
        -- rewrite length_take, length_drop. nia.
      * apply Hnew. lia.
    + intros j Hj. rewrite Hold by lia. apply load_store_other; lia || nia.
Qed.

(** The applier with the identity function copies: every element of the
    output reads as the input element at the same position (spec 8, the
    applier's idempotence). *)
Lemma apply_unary_map_fn_identity (T : ScalarType) (src dst : list Z) (n : Z) :
  bytes src -> 0 <= n ->
  n * elementSize T <= Z.of_nat (length src) ->
  n * elementSize T <= Z.of_nat (length dst) ->
  exists dst',
    (apply_unary_map_fn (fun v => v) T T (Some src) (Some dst) n).2
    = Some (Some dst')
    /\ length dst' = length dst
    /\ forall i, 0 <= i < n ->
         exists v, load T (Some src) i = Some v /\ load T (Some dst') i = Some v.
Proof.
  intros Hb H0 Hs Hd. pose proof (elementSize_pos T) as Hw.
  destruct (for_each_identity T src (Z.to_nat n) 0 dst)
    as (d' & Hrun & Hl & Hnew & _); [done | lia | lia | lia |].
  exists d'. split; [exact Hrun |]. split; [done |].
  intros i Hi. rewrite Hnew by lia. rewrite load_Some by nia. eauto.
Qed.

(** ** Properties of the entry points *)

Ltac checks :=
  unfold ET_CHECK_SAME_SHAPE_AND_DTYPE2, ET_SWITCH, ET_CHECK, failed, finish in *;
  repeat case_match; simplify_eq /=.

(** C9: when [bitwise_or_Scalar_out] succeeds the output has exactly the
    shape of the input tensor [a]: the output is resized to [a]'s shape and
    nothing is broadcast against the scalar; the per-element function ran
    once for each position of that shape, in order. *)
Theorem bitwise_or_Scalar_out_shape (a : Tensor) (b : Scalar) (out out' : Tensor) :
  outcome (bitwise_or_Scalar_out a b out) = Ok out' ->
  sizes out' = sizes a
  /\ trace (bitwise_or_Scalar_out a b out) = ElementFn <$> seqZ 0 (numel a).
Proof.
  unfold bitwise_or_Scalar_out.
  destruct (resize_tensor out (sizes a)) as [e | out1] eqn:R; [done |].
  apply resize_tensor_inr in R as (Hs & _ & _).
  unfold ET_SWITCH, ET_CHECK, failed, finish.
  repeat (case_match; try done); simplify_eq /=.
  intros [= <-]. split; [done |].
  erewrite apply_unary_map_fn_trace by eassumption.
  unfold numel. by rewrite Hs.
Qed.

Lemma product_zero (shape : list Z) : 0 ∈ shape -> product shape = 0.
Proof.
  unfold product. induction shape as [| d shape IH]; cbn [foldr].
  - by intros ?%elem_of_nil.
  - intros [<- | H]%elem_of_cons; [lia |]. rewrite IH by done. lia.
Qed.

Lemma memcpy_contents (dst src p : option (list Z)) (n : Z) :
  memcpy dst src n = Some p ->
  exists d s, dst = Some d /\ src = Some s
    /\ p = Some (take (Z.to_nat n) s ++ drop (Z.to_nat n) d)
    /\ 0 <= n /\ n <= Z.of_nat (length d) /\ n <= Z.of_nat (length s).
Proof.
  unfold memcpy. intros H. destruct dst as [d |], src as [s |]; try done.
  case_match eqn:C; [| done]. simplify_eq.
  exists d, s. repeat split; lia.
Qed.

(** C10: [detach_copy_out] needs the input and the output to be of one
    dtype.  When the dtypes differ the call fails with no access to the
    buffers, the output being as it was received or as the resizer left it;
    when the call succeeds the dtypes are equal and the bytes of the
    output's elements are those of the input's, unconverted. *)
Theorem detach_copy_out_same_dtype (self out : Tensor) :
  (scalar_type self <> scalar_type out ->
   exists e out',
     detach_copy_out self out = failed e out'
     /\ (out' = out \/ resize_tensor out (sizes self) = inr out'))
  /\ (forall out',
      outcome (detach_copy_out self out) = Ok out' ->
      scalar_type self = scalar_type out
      /\ scalar_type out' = scalar_type self
      /\ contents out' = contents self).
Proof.
  unfold detach_copy_out. split.
  - intros Hne.
    destruct (resize_tensor out (sizes self)) as [e | out1] eqn:R; [by eauto |].
    pose proof R as (Hs & Ht & _)%resize_tensor_inr.
    unfold ET_CHECK_SAME_SHAPE_AND_DTYPE2, ET_CHECK.
    rewrite bool_decide_true by done.
    destruct (ScalarType_eqb _ _) eqn:E; [| by eauto].
    apply ScalarType_eqb_eq in E. congruence.
  - intros out'.
    destruct (resize_tensor out (sizes self)) as [e | out1] eqn:R; [done |].
    apply resize_tensor_inr in R as (Hs & Ht & _).
    unfold ET_CHECK_SAME_SHAPE_AND_DTYPE2, ET_CHECK, failed.
    destruct (bool_decide _); [| done].
    destruct (ScalarType_eqb _ _) eqn:E; [| done].
    apply ScalarType_eqb_eq in E.
    destruct (Z.ltb_spec 0 (nbytes self)) as [Hn | Hn]; cbn [outcome].
    + destruct (memcpy _ _ _) as [p |] eqn:M; [| done].
      intros [= <-]. cbn [with_data scalar_type].
      split; [congruence |]. split; [congruence |].
      apply memcpy_contents in M as (d & s & Hd & Hsrc & -> & H0 & Hld & Hls).
      assert (nbytes (with_data out1 (Some (take (Z.to_nat (nbytes self)) s
                ++ drop (Z.to_nat (nbytes self)) d))) = nbytes self) as Hnb.
      { unfold nbytes, numel. cbn [with_data sizes scalar_type]. congruence. }
      unfold contents. rewrite Hnb, Hsrc.
      cbn [with_data data_ptr default from_option id].
      rewrite take_app_le by (rewrite length_take; lia).
      rewrite take_take. f_equal. lia.
    + intros [= <-]. split; [congruence |]. split; [congruence |].
      unfold contents.
      assert (nbytes out1 = nbytes self) as ->
        by (unfold nbytes, numel; congruence).
      replace (Z.to_nat _) with 0%nat by lia. done.
Qed.

(** C7: copying a tensor without elements (some dimension is 0) makes no
    access to either buffer: [memcpy] is not called, whether or not the data
    pointers are null, and no per-element function runs.  When the output
    accepts the shape and has the input's dtype the call returns the output,
    now empty, with its buffer as it was.  The unary applier on zero
    elements likewise makes no iteration and returns the output buffer. *)
Theorem detach_copy_out_zero_elements (self out : Tensor) :
  0 ∈ sizes self ->
  trace (detach_copy_out self out) = []
  /\ (forall out1,
      resize_tensor out (sizes self) = inr out1 ->
      scalar_type self = scalar_type out ->
      detach_copy_out self out = {| trace := []; outcome := Ok out1 |}
      /\ numel out1 = 0
      /\ data_ptr out1 = data_ptr out)
  /\ (forall fn CTYPE_IN CTYPE_OUT data_in data_out,
      apply_unary_map_fn fn CTYPE_IN CTYPE_OUT data_in data_out (numel self)
      = ([], Some data_out)).
Proof.
  intros H0. apply product_zero in H0.
  assert (nbytes self = 0) as Hn by (unfold nbytes, numel; rewrite H0; lia).
  unfold detach_copy_out. split; [| split].
  - unfold ET_CHECK_SAME_SHAPE_AND_DTYPE2, ET_CHECK, failed.
    rewrite Hn. repeat case_match; done.
  - intros out1 R Ht.
    pose proof R as (Hs & Ht1 & _)%resize_tensor_inr.
    rewrite R. unfold ET_CHECK_SAME_SHAPE_AND_DTYPE2, ET_CHECK.
    rewrite bool_decide_true by done.
    replace (ScalarType_eqb _ _) with true
      by (symmetry; apply ScalarType_eqb_eq; congruence).
    rewrite Hn. cbn. split; [done |]. split.
    + unfold numel. by rewrite Hs.
    + eapply resize_tensor_within_capacity; [done |].
      rewrite H0. apply capacity_nonneg.
  - intros. unfold apply_unary_map_fn, numel. by rewrite H0.
Qed.

Lemma load_memcpy (CTYPE : ScalarType) (s d : list Z) (n i : Z) :
  0 <= i -> (i + 1) * elementSize CTYPE <= n ->
  n <= Z.of_nat (length s) -> n <= Z.of_nat (length d) ->
  exists v,
    load CTYPE (Some s) i = Some v
    /\ load CTYPE (Some (take (Z.to_nat n) s ++ drop (Z.to_nat n) d)) i = Some v.
Proof.
  intros Hi Hn Hs Hd. pose proof (elementSize_pos CTYPE) as Hw.
  unfold load. rewrite length_app, length_take, length_drop.
  rewrite !andb_true_intro by (split; apply Z.leb_le; lia).
  eexists. split; [done |]. do 2 f_equal.
  rewrite !take_drop_commute. f_equal.
  rewrite take_app_le by (rewrite length_take; lia).
  rewrite take_take. f_equal. nia.
Qed.

(** C8: the copy operator leaves the copied values unchanged: for valid
    tensors, when the output accepts the input's shape and has its dtype,
    [detach_copy_out] returns an output of the input's shape and dtype whose
    every element equals the input element at the same position. *)
Theorem detach_copy_out_copies_elements (self out out1 : Tensor) :
  honest request_storage ->
  valid self -> valid out ->
  resize_tensor out (sizes self) = inr out1 ->
  scalar_type self = scalar_type out ->
  exists out',
    outcome (detach_copy_out self out) = Ok out'
    /\ sizes out' = sizes self
    /\ scalar_type out' = scalar_type self
    /\ forall i, 0 <= i < numel self ->
         exists v, element self i = Some v /\ element out' i = Some v.
Proof.
  intros Hh [Hs0 Hs1] [_ Ho1] R Ht.
  pose proof (resize_tensor_fits _ _ _ Hh Ho1 R) as Hfit.
  pose proof R as (Hs & Ht1 & _)%resize_tensor_inr.
  assert (nbytes out1 = nbytes self) as Hnb
    by (unfold nbytes, numel; congruence).
  pose proof (elementSize_pos (scalar_type self)) as Hw.
  unfold detach_copy_out. rewrite R.
  unfold ET_CHECK_SAME_SHAPE_AND_DTYPE2, ET_CHECK.
  rewrite bool_decide_true by done.
  replace (ScalarType_eqb _ _) with true
    by (symmetry; apply ScalarType_eqb_eq; congruence).
  destruct (Z.ltb_spec 0 (nbytes self)) as [Hn | Hn]; cbn [outcome].
  - destruct (data_ptr self) as [s |] eqn:Es; [| simpl in Hs1; lia].
    destruct (data_ptr out1) as [d |] eqn:Ed; [| simpl in Hfit; lia].
    simpl in Hs1, Hfit. unfold memcpy.
    rewrite !(proj2 (Z.leb_le _ _)) by lia. cbn [andb].
    eexists. split; [done |]. cbn [with_data sizes scalar_type].
    split; [done |]. split; [congruence |].
    intros i Hi. unfold element. cbn [with_data scalar_type data_ptr].
    rewrite Es. replace (scalar_type out1) with (scalar_type self) by congruence.
    apply load_memcpy; try lia. unfold nbytes. nia.
  - eexists. split; [done |]. split; [done |]. split; [congruence |].
    intros i Hi. unfold nbytes in *. nia.
Qed.

Lemma resize_stage_errors (a b out : Tensor) (e : Error) :
  resize_to_broadcast_target_size a b out = inl e \/
  (exists target, resize_tensor out target = inl e) ->
  e = ShapeMismatch \/ e = ResizeNotAllowed \/ e = StorageUnavailable.
Proof.
  unfold resize_to_broadcast_target_size, broadcast, resize_tensor.
  intros [H | [target H]]; repeat case_match; simplify_eq; eauto.
Qed.


Lemma resize_tensor_kinds (t : Tensor) (target : list Z) (e : Error) :
  resize_tensor t target = inl e ->
  e = match shape_dynamism t with
      | DYNAMIC_UNBOUND => StorageUnavailable
      | _ => ResizeNotAllowed
      end.
Proof. unfold resize_tensor. intros H. repeat case_match; by simplify_eq. Qed.

Lemma resize_to_broadcast_target_size_dtype (a b out out1 : Tensor) :
  resize_to_broadcast_target_size a b out = inr out1 ->
  scalar_type out1 = scalar_type out.
Proof.
  unfold resize_to_broadcast_target_size. intros H.
  destruct (broadcast (sizes a) (sizes b)); [done |].
  by apply resize_tensor_inr in H as (_ & ? & _).
Qed.

Lemma failed_no_event (e : Error) (out : Tensor) (P : Prop) :
  trace (failed e out) <> [] -> P.
Proof. intros H. by destruct H. Qed.

Lemma finish_not_failure out r e out' : outcome (finish out r) <> Failure e out'.
Proof. unfold finish. cbn. by case_match. Qed.

(** C1: at every entry point the checks come before the first access to
    an element, and a check that fails ends the call there, with no element
    computed or written and with the kind of that check.  The shape stage
    comes first: shapes that do not broadcast give ShapeMismatch, an output
    that does not accept the target shape gives ResizeNotAllowed
    (StorageUnavailable for an unbounded output the allocator refuses), and
    the output is exactly as the call received it.  The cast check and then
    the dtype switches follow on the resized output: a failed cast check
    gives UnsupportedCast, a failed dtype switch UnsupportedDtype, with the
    output as the resizer returned it.  A call whose checks all pass does
    not fail, and only such a call touches an element. *)
Theorem checks_precede_writes (a b self out : Tensor) (s : Scalar) :
  checks_decide (resize_to_broadcast_target_size a b out)
    (canCast (promoteTypes (scalar_type a) (scalar_type b)) (scalar_type out))
    (INT_TYPES_AND_Bool (scalar_type a)
     && INT_TYPES_AND_Bool (scalar_type b)
     && INT_TYPES_AND_Bool (promoteTypes (scalar_type a) (scalar_type b))
     && REAL_TYPES_AND_Bool (scalar_type out))
    out (bitwise_or_Tensor_out a b out)
  /\ checks_decide (resize_tensor out (sizes a))
       (canCast (promote_type_with_scalar (scalar_type a) s) (scalar_type out))
       (INT_TYPES_AND_Bool (scalar_type a)
        && SCALAR_OBJ_INTB_TYPES (get_scalar_dtype s)
        && INT_TYPES_AND_Bool (promote_type_with_scalar (scalar_type a) s)
        && REAL_TYPES_AND_Bool (scalar_type out))
       out (bitwise_or_Scalar_out a s out)
  /\ checks_decide (resize_tensor out (sizes self))
       (ScalarType_eqb (scalar_type self) (scalar_type out)) true
       out (detach_copy_out self out)
  /\ (forall e,
      broadcast (sizes a) (sizes b) = inl e ->
      e = ShapeMismatch
      /\ resize_to_broadcast_target_size a b out = inl ShapeMismatch)
  /\ (forall plan,
      broadcast (sizes a) (sizes b) = inr plan ->
      resize_to_broadcast_target_size a b out
      = resize_tensor out (plan_shape plan))
  /\ (forall target e,
      resize_tensor out target = inl e ->
      e = match shape_dynamism out with
          | DYNAMIC_UNBOUND => StorageUnavailable
          | _ => ResizeNotAllowed
          end)
  /\ fails_before_writing (resize_to_broadcast_target_size a b out) out
       (bitwise_or_Tensor_out a b out)
  /\ fails_before_writing (resize_tensor out (sizes a)) out
       (bitwise_or_Scalar_out a s out)
  /\ fails_before_writing (resize_tensor out (sizes self)) out
       (detach_copy_out self out)
  /\ (forall e target,
      resize_to_broadcast_target_size a b out = inl e
      \/ resize_tensor out target = inl e ->
      e = ShapeMismatch \/ e = ResizeNotAllowed \/ e = StorageUnavailable).
Proof.
  assert (HT : checks_decide (resize_to_broadcast_target_size a b out)
    (canCast (promoteTypes (scalar_type a) (scalar_type b)) (scalar_type out))
    (INT_TYPES_AND_Bool (scalar_type a)
     && INT_TYPES_AND_Bool (scalar_type b)
     && INT_TYPES_AND_Bool (promoteTypes (scalar_type a) (scalar_type b))
     && REAL_TYPES_AND_Bool (scalar_type out))
    out (bitwise_or_Tensor_out a b out)).
  { unfold checks_decide, bitwise_or_Tensor_out.
    destruct (resize_to_broadcast_target_size a b out) as [e1 | out1] eqn:R.
    { split; [done | apply failed_no_event]. }
    cbv zeta. rewrite (resize_to_broadcast_target_size_dtype a b out out1 R).
    unfold ET_SWITCH, ET_CHECK.
    destruct (canCast _ _); cbn [negb]; [| split; [done | apply failed_no_event]].
    destruct (INT_TYPES_AND_Bool (scalar_type a)); cbn [negb andb];
      [| split; [done | apply failed_no_event]].
    destruct (INT_TYPES_AND_Bool (scalar_type b)); cbn [negb andb];
      [| split; [done | apply failed_no_event]].
    destruct (INT_TYPES_AND_Bool (promoteTypes _ _)); cbn [negb andb];
      [| split; [done | apply failed_no_event]].
    destruct (REAL_TYPES_AND_Bool (scalar_type out)); cbn [negb andb];
      [| split; [done | apply failed_no_event]].
    split; [intros; apply finish_not_failure | by eauto]. }
  assert (HS : checks_decide (resize_tensor out (sizes a))
    (canCast (promote_type_with_scalar (scalar_type a) s) (scalar_type out))
    (INT_TYPES_AND_Bool (scalar_type a)
     && SCALAR_OBJ_INTB_TYPES (get_scalar_dtype s)
     && INT_TYPES_AND_Bool (promote_type_with_scalar (scalar_type a) s)
     && REAL_TYPES_AND_Bool (scalar_type out))
    out (bitwise_or_Scalar_out a s out)).
  { unfold checks_decide, bitwise_or_Scalar_out.
    destruct (resize_tensor out (sizes a)) as [e1 | out1] eqn:R.
    { split; [done | apply failed_no_event]. }
    pose proof (resize_tensor_inr _ _ _ R) as (_ & Ht & _).
    cbv zeta. rewrite Ht. unfold ET_SWITCH, ET_CHECK.
    destruct (canCast (promote_type_with_scalar (scalar_type a) s) (scalar_type out));
      cbn [negb]; [| split; [done | apply failed_no_event]].
    destruct (INT_TYPES_AND_Bool (scalar_type a)); cbn [negb andb];
      [| split; [done | apply failed_no_event]].
    destruct (SCALAR_OBJ_INTB_TYPES (get_scalar_dtype s)); cbn [negb andb];
      [| split; [done | apply failed_no_event]].
    destruct (INT_TYPES_AND_Bool (promote_type_with_scalar (scalar_type a) s));
      cbn [negb andb];
      [| split; [done | apply failed_no_event]].
    destruct (REAL_TYPES_AND_Bool (scalar_type out)); cbn [negb andb];
      [| split; [done | apply failed_no_event]].
    split; [intros; apply finish_not_failure | by eauto]. }
  assert (HD : checks_decide (resize_tensor out (sizes self))
    (ScalarType_eqb (scalar_type self) (scalar_type out)) true
    out (detach_copy_out self out)).
  { unfold checks_decide, detach_copy_out.
    destruct (resize_tensor out (sizes self)) as [e1 | out1] eqn:R.
    { split; [done | apply failed_no_event]. }
    pose proof (resize_tensor_inr _ _ _ R) as (Hs & Ht & _).
    unfold ET_CHECK_SAME_SHAPE_AND_DTYPE2, ET_CHECK.
    rewrite bool_decide_eq_true_2 by done. rewrite Ht.
    destruct (ScalarType_eqb (scalar_type self) (scalar_type out)); cbn [negb];
      [| split; [done | apply failed_no_event]].
    split; [| by eauto].
    intros e out'. repeat case_match; done. }
  split; [exact HT |]. split; [exact HS |]. split; [exact HD |].
  split.
  { unfold resize_to_broadcast_target_size, broadcast.
    intros e He. case_match; by simplify_eq. }
  split.
  { unfold resize_to_broadcast_target_size. by intros plan ->. }
  split; [intros target e; apply resize_tensor_kinds |].
  unfold fails_before_writing. repeat split.
  - unfold bitwise_or_Tensor_out in *.
    destruct (resize_to_broadcast_target_size a b out) as [e1 | out1];
      checks; done.
  - unfold bitwise_or_Tensor_out in *.
    destruct (resize_to_broadcast_target_size a b out) as [e1 | out1];
      checks; eauto.
  - unfold bitwise_or_Scalar_out in *.
    destruct (resize_tensor out (sizes a)) as [e1 | out1]; checks; done.
  - unfold bitwise_or_Scalar_out in *.
    destruct (resize_tensor out (sizes a)) as [e1 | out1]; checks; eauto.
  - unfold detach_copy_out in *.
    destruct (resize_tensor out (sizes self)) as [e1 | out1]; checks; done.
  - unfold detach_copy_out in *.
    destruct (resize_tensor out (sizes self)) as [e1 | out1] eqn:R;
      checks; eauto.
    apply resize_tensor_inr in R as (Hs & _).
    match goal with H : bool_decide _ = false |- _ =>
      apply bool_decide_eq_false in H end.
    congruence.
  - intros e target [H | H]; apply (resize_stage_errors a b out); eauto.
Qed.

(** ** Properties of the per-element function *)

Lemma unsigned_range (k x : Z) :
  0 <= k -> (0 <= x < 2 ^ k <-> Z.shiftr x k = 0).
Proof.
  intros Hk. rewrite Z.shiftr_div_pow2 by done.
  assert (0 < 2 ^ k) by (apply Z.pow_pos_nonneg; lia).
  split.
  - intros H'. by apply Z.div_small.
  - intros H'. apply Z.div_small_iff in H' as [H' | H']; lia.
Qed.

Lemma signed_range (k x : Z) :
  0 <= k ->
  (- 2 ^ k <= x < 2 ^ k <-> Z.shiftr x k = 0 \/ Z.shiftr x k = -1).
Proof.
  intros Hk. rewrite Z.shiftr_div_pow2 by done.
  assert (0 < 2 ^ k) as Hp by (apply Z.pow_pos_nonneg; lia).
  pose proof (Z.div_mod x (2 ^ k) ltac:(lia)) as Hdm.
  pose proof (Z.mod_pos_bound x (2 ^ k) Hp) as Hm.
  split; intros H'; nia.
Qed.

Lemma lor_unsigned_range (k a b : Z) :
  0 <= k -> 0 <= a < 2 ^ k -> 0 <= b < 2 ^ k -> 0 <= Z.lor a b < 2 ^ k.
Proof.
  intros Hk Ha%unsigned_range Hb%unsigned_range; try done.
  apply unsigned_range; [done |]. by rewrite Z.shiftr_lor, Ha, Hb.
Qed.

Lemma lor_signed_range (k a b : Z) :
  0 <= k -> - 2 ^ k <= a < 2 ^ k -> - 2 ^ k <= b < 2 ^ k ->
  - 2 ^ k <= Z.lor a b < 2 ^ k.
Proof.
  intros Hk Ha%signed_range Hb%signed_range; try done.
  apply signed_range; [done |]. rewrite Z.shiftr_lor.
  destruct Ha as [-> | ->], Hb as [-> | ->]; auto.
Qed.

Lemma representable_bounds (t : ScalarType) (v : Z) :
  representable t v = true <->
  isIntegralType t true = true /\ lower_bound t <= v <= upper_bound t.
Proof.
  unfold representable. rewrite !andb_true_iff, !Z.leb_le.
  split; [intros [[? ?] ?] | intros (? & ? & ?)]; auto.
Qed.

(** A cast to an integral dtype keeps a value of that dtype. *)
Lemma static_cast_representable (t : ScalarType) (v : Z) :
  representable t v = true -> static_cast t v = v.
Proof.
  intros (Ht & Hl & Hu)%representable_bounds.
  destruct t; try discriminate; cbn [static_cast lower_bound upper_bound] in *.
  - apply Z.mod_small. lia.
  - rewrite Z.mod_small by lia. lia.
  - rewrite Z.mod_small by lia. lia.
  - rewrite Z.mod_small by lia. lia.
  - rewrite Z.mod_small by lia. lia.
  - assert (v = 0 \/ v = 1) as [-> | ->] by lia; reflexivity.
Qed.

Lemma lor_representable (t : ScalarType) (a b : Z) :
  representable t a = true -> representable t b = true ->
  representable t (Z.lor a b) = true.
Proof.
  intros (Ht & Ha)%representable_bounds (_ & Hb)%representable_bounds.
  apply representable_bounds. split; [done |].
  destruct t; try discriminate; cbn [lower_bound upper_bound] in *.
  - pose proof (lor_unsigned_range 8 a b). lia.
  - pose proof (lor_signed_range 7 a b). lia.
  - pose proof (lor_signed_range 15 a b). lia.
  - pose proof (lor_signed_range 31 a b). lia.
  - pose proof (lor_signed_range 63 a b). lia.
  - pose proof (lor_unsigned_range 1 a b). lia.
Qed.

(** X1: on two values of an integer dtype the per-element function is the
    bitwise OR of the two's-complement integers, with no wrap-around: the
    result is a value of the dtype and each of its bits is the OR of the
    operands' bits. *)
Theorem bitwise_or_in_range (CTYPE : ScalarType) (a b : Z) :
  isIntegralType CTYPE false = true ->
  representable CTYPE a = true ->
  representable CTYPE b = true ->
  bitwise_or CTYPE a b = Z.lor a b
  /\ representable CTYPE (bitwise_or CTYPE a b) = true
  /\ forall n, Z.testbit (bitwise_or CTYPE a b) n
               = Z.testbit a n || Z.testbit b n.
Proof.
  intros Ht Ha Hb.
  assert (bitwise_or CTYPE a b = Z.lor a b) as ->.
  { destruct CTYPE; try discriminate; cbn [bitwise_or];
      unfold bitwise_or_generic;
      by apply static_cast_representable, lor_representable. }
  split; [done |]. split; [by apply lor_representable |].
  intros n. apply Z.lor_spec.
Qed.

Lemma bitwise_or_comm (CTYPE : ScalarType) (a b : Z) :
  bitwise_or CTYPE a b = bitwise_or CTYPE b a.
Proof.
  destruct CTYPE; cbn [bitwise_or]; unfold bitwise_or_generic, bitwise_or_bool;
    by rewrite ?(Z.lor_comm a b), ?(orb_comm (to_bool a)).
Qed.

Lemma bitwise_or_representable (CTYPE : ScalarType) (a b : Z) :
  representable CTYPE a = true -> representable CTYPE b = true ->
  bitwise_or CTYPE a b = Z.lor a b
  /\ representable CTYPE (Z.lor a b) = true.
Proof.
  intros Ha Hb. split; [| by apply lor_representable].
  destruct CTYPE; try (by apply representable_bounds in Ha as [? _]).
  1-5: cbn [bitwise_or]; unfold bitwise_or_generic;
    by apply static_cast_representable, lor_representable.
  apply representable_bounds in Ha as (_ & Ha).
  apply representable_bounds in Hb as (_ & Hb).
  cbn [lower_bound upper_bound] in *.
  assert (a = 0 \/ a = 1) as [-> | ->] by lia;
    assert (b = 0 \/ b = 1) as [-> | ->] by lia; reflexivity.
Qed.

(** X2: the per-element function is commutative on all operands at every
    dtype; on values of an integer or boolean dtype it is associative and
    idempotent, and 0 (false) is its neutral element. *)
Theorem bitwise_or_algebra (CTYPE : ScalarType) (a b c : Z) :
  bitwise_or CTYPE a b = bitwise_or CTYPE b a
  /\ (representable CTYPE a = true ->
      representable CTYPE b = true ->
      representable CTYPE c = true ->
      bitwise_or CTYPE (bitwise_or CTYPE a b) c
      = bitwise_or CTYPE a (bitwise_or CTYPE b c)
      /\ bitwise_or CTYPE a a = a
      /\ bitwise_or CTYPE a 0 = a
      /\ bitwise_or CTYPE 0 a = a).
Proof.
  split; [apply bitwise_or_comm |]. intros Ha Hb Hc.
  assert (representable CTYPE 0 = true) as H0.
  { apply representable_bounds in Ha as [Ht _]. apply representable_bounds.
    split; [done |]. destruct CTYPE; try discriminate; cbn; lia. }
  destruct (bitwise_or_representable CTYPE a b Ha Hb) as [Eab Rab].
  destruct (bitwise_or_representable CTYPE b c Hb Hc) as [Ebc Rbc].
  rewrite Eab, Ebc.
  rewrite (proj1 (bitwise_or_representable CTYPE _ c Rab Hc)).
  rewrite (proj1 (bitwise_or_representable CTYPE a _ Ha Rbc)).
  rewrite (proj1 (bitwise_or_representable CTYPE a a Ha Ha)).
  rewrite (proj1 (bitwise_or_representable CTYPE a 0 Ha H0)).
  rewrite (proj1 (bitwise_or_representable CTYPE 0 a H0 Ha)).
  by rewrite Z.lor_assoc, Z.lor_diag, Z.lor_0_r, Z.lor_0_l.
Qed.

(** X3: on boolean data the generic instantiation and the [bool]
    specialisation agree: computing the OR of two booleans in any integer
    dtype and casting the result back to [bool] is their logical OR. *)
Theorem bitwise_or_bool_any_computation_dtype (CTYPE : ScalarType) (a b : bool) :
  isIntegralType CTYPE true = true ->
  bitwise_or_generic CTYPE (Z.b2z a) (Z.b2z b) = Z.b2z (bitwise_or_bool a b)
  /\ static_cast Bool
       (bitwise_or CTYPE (static_cast CTYPE (Z.b2z a))
                         (static_cast CTYPE (Z.b2z b)))
     = Z.b2z (a || b).
Proof.
  intros Ht. destruct CTYPE; try discriminate; destruct a, b; split; reflexivity.
Qed.

(** ** The unary applier on buffers that hold the elements *)

Lemma load_element_bytes (T : ScalarType) (buf : list Z) (i : Z) :
  0 <= i -> (i + 1) * elementSize T <= Z.of_nat (length buf) ->
  load T (Some buf) i = Some (decode T (element_bytes T buf i)).
Proof. apply load_Some. Qed.

Lemma store_at_bytes_same (T : ScalarType) (buf : list Z) (i v : Z) :
  0 <= i -> (i + 1) * elementSize T <= Z.of_nat (length buf) ->
  element_bytes T (store_at T buf i v) i = encode T v.
Proof.
  intros Hi Hfit.
  pose proof (elementSize_pos T) as Hw. pose proof (length_encode T v) as He.
  unfold element_bytes, store_at.
  replace (Z.to_nat (elementSize T)) with (length (encode T v)) by lia.
  replace (Z.to_nat ((i + 1) * elementSize T))
    with (Z.to_nat (i * elementSize T) + length (encode T v))%nat by lia.
  assert (0 <= i * elementSize T) by nia.
  apply slice_splice_same. lia.
Qed.

Lemma store_at_bytes_other (T : ScalarType) (buf : list Z) (i v j : Z) :
  0 <= i -> (i + 1) * elementSize T <= Z.of_nat (length buf) ->
  0 <= j -> j <> i ->
  element_bytes T (store_at T buf i v) j = element_bytes T buf j.
Proof.
  intros Hi Hfit Hj Hne.
  pose proof (elementSize_pos T) as Hw. pose proof (length_encode T v) as He.
  unfold element_bytes, store_at.
  destruct (Z.lt_ge_cases j i).
  - assert (j * elementSize T + elementSize T <= i * elementSize T) by nia.
    assert (0 <= j * elementSize T) by nia.
    apply slice_splice_before; lia.
  - f_equal.
    replace (Z.to_nat ((i + 1) * elementSize T))
      with (Z.to_nat (i * elementSize T) + length (encode T v))%nat by lia.
    assert (i * elementSize T + elementSize T <= j * elementSize T) by nia.
    assert (0 <= i * elementSize T) by nia.
    apply slice_splice_after; lia.
Qed.

Lemma store_at_drop (T : ScalarType) (buf : list Z) (i v : Z) (a : nat) :
  0 <= i -> (i + 1) * elementSize T <= Z.of_nat (length buf) ->
  (i + 1) * elementSize T <= Z.of_nat a ->
  drop a (store_at T buf i v) = drop a buf.
Proof.
  intros Hi Hfit Ha.
  pose proof (elementSize_pos T) as Hw. pose proof (length_encode T v) as He.
  unfold store_at.
  replace (Z.to_nat ((i + 1) * elementSize T))
    with (Z.to_nat (i * elementSize T) + length (encode T v))%nat by lia.
  assert (0 <= i * elementSize T) by nia.
  apply slice_splice_after; lia.
Qed.

Lemma for_each_map (fn : Z -> Z) (CIN COUT : ScalarType) (src : list Z) (k : nat) :
  forall (first : Z) (d : list Z),
    0 <= first ->
    (first + Z.of_nat k) * elementSize CIN <= Z.of_nat (length src) ->
    (first + Z.of_nat k) * elementSize COUT <= Z.of_nat (length d) ->
    exists d',
      for_each
        (fun i out =>
           match load CIN (Some src) i with
           | None => None
           | Some v => store COUT out i (fn v)
           end) first k (Some d)
      = (ElementFn <$> seqZ first (Z.of_nat k), Some (Some d'))
      /\ length d' = length d
      /\ (forall j, first <= j < first + Z.of_nat k ->
           element_bytes COUT d' j
           = encode COUT (fn (decode CIN (element_bytes CIN src j))))
      /\ (forall j, 0 <= j < first ->
           element_bytes COUT d' j = element_bytes COUT d j)
      /\ drop (Z.to_nat ((first + Z.of_nat k) * elementSize COUT)) d'
         = drop (Z.to_nat ((first + Z.of_nat k) * elementSize COUT)) d.
Proof.
  pose proof (elementSize_pos CIN) as Hwi.
  pose proof (elementSize_pos COUT) as Hwo.
  induction k as [| k IH]; intros first d H0 Hsrc Hd; cbn [for_each].
  - exists d. split; [done |]. split; [done |].
    split; [intros; lia |]. split; done.
  - rewrite load_element_bytes by nia. rewrite store_Some by nia.
    set (v := fn _). set (d1 := store_at COUT d first v).
    assert (length d1 = length d) as Hl1 by (apply store_at_length; nia).
    destruct (IH (first + 1) d1) as (d' & Hrun & Hl & Hnew & Hold & Htail);
      [lia | nia | rewrite Hl1; nia |].
    exists d'. rewrite Hrun. cbn [fst snd]. split.
    { f_equal. rewrite (seqZ_cons first) by lia. cbn [fmap list_fmap].
      replace (Z.pred (Z.of_nat (S k))) with (Z.of_nat k) by lia.
      by replace (Z.succ first) with (first + 1) by lia. }
    split; [congruence |]. split; [| split].
    + intros j Hj. destruct (decide (j = first)) as [-> | Hne].
      * rewrite Hold by lia. unfold d1. by rewrite store_at_bytes_same by nia.
      * apply Hnew. lia.
    + intros j Hj. rewrite Hold by lia.
      apply store_at_bytes_other; lia || nia.
    + replace (first + Z.of_nat (S k)) with (first + 1 + Z.of_nat k) by lia.
      rewrite Htail. apply store_at_drop; nia.
Qed.

Lemma buffer_Some (p : option (list Z)) (n : Z) :
  0 < n -> n <= buffer_bytes p -> exists buf, p = Some buf.
Proof. destruct p; [eauto | simpl; lia]. Qed.

(** The unary applier over [n] elements that the two buffers hold: it
    runs to the end, writes the bytes of [fn] of each input element at the
    same position, and leaves the rest of the output buffer as it was. *)
Lemma apply_unary_map_fn_valid (fn : Z -> Z) (CIN COUT : ScalarType)
    (data_in data_out : option (list Z)) (n : Z) :
  0 <= n ->
  n * elementSize CIN <= buffer_bytes data_in ->
  n * elementSize COUT <= buffer_bytes data_out ->
  exists p,
    apply_unary_map_fn fn CIN COUT data_in data_out n
    = (ElementFn <$> seqZ 0 n, Some p)
    /\ buffer_bytes p = buffer_bytes data_out
    /\ (n = 0 -> p = data_out)
    /\ (forall i, 0 <= i < n ->
         element_bytes COUT (default [] p) i
         = encode COUT (fn (decode CIN (element_bytes CIN (default [] data_in) i))))
    /\ drop (Z.to_nat (n * elementSize COUT)) (default [] p)
       = drop (Z.to_nat (n * elementSize COUT)) (default [] data_out).
Proof.
  intros H0 Hin Hout.
  pose proof (elementSize_pos CIN) as Hwi.
  pose proof (elementSize_pos COUT) as Hwo.
  destruct (decide (n = 0)) as [-> | Hn].
  - exists data_out. unfold apply_unary_map_fn. cbn.
    split; [done |]. split; [done |]. split; [done |].
    split; [intros; lia | done].
  - destruct (buffer_Some data_in (n * elementSize CIN)) as [src ->];
      [nia | done |].
    destruct (buffer_Some data_out (n * elementSize COUT)) as [dst ->];
      [nia | done |].
    cbn [buffer_bytes] in *. unfold apply_unary_map_fn.
    destruct (for_each_map fn CIN COUT src (Z.to_nat n) 0 dst)
      as (d' & Hrun & Hl & Hnew & _ & Htail); [lia | lia | lia |].
    rewrite Z2Nat.id in * by lia. cbn [Z.add] in *.
    exists (Some d'). split; [done |]. cbn [buffer_bytes default from_option id].
    split; [lia |]. split; [lia |]. split; [| done].
    intros i Hi. apply Hnew. lia.
Qed.

(** ** More properties of the entry points of op_bitwise_or.cpp *)

Lemma promote_type_with_scalar_intb (t : ScalarType) (s : Scalar) :
  INT_TYPES_AND_Bool t = true ->
  SCALAR_OBJ_INTB_TYPES (get_scalar_dtype s) = true ->
  INT_TYPES_AND_Bool (promote_type_with_scalar t s) = true.
Proof.
  intros Ht Hs. unfold promote_type_with_scalar.
  case_match; [done |]. destruct t, s; done.
Qed.

Lemma static_cast_range (t : ScalarType) (v : Z) :
  isIntegralType t true = true -> representable t (static_cast t v) = true.
Proof.
  intros Ht. apply representable_bounds. split; [done |].
  destruct t; try discriminate; cbn [static_cast lower_bound upper_bound].
  - pose proof (Z.mod_pos_bound v (2 ^ 8)). lia.
  - pose proof (Z.mod_pos_bound (v + 2 ^ 7) (2 ^ 8)). lia.
  - pose proof (Z.mod_pos_bound (v + 2 ^ 15) (2 ^ 16)). lia.
  - pose proof (Z.mod_pos_bound (v + 2 ^ 31) (2 ^ 32)). lia.
  - pose proof (Z.mod_pos_bound (v + 2 ^ 63) (2 ^ 64)). lia.
  - destruct (to_bool v); simpl; lia.
Qed.

(** Reading back a value of an integral dtype that was written. *)
Lemma decode_encode (t : ScalarType) (v : Z) :
  representable t v = true -> decode t (encode t v) = v.
Proof.
  intros (Ht & Hl & Hu)%representable_bounds.
  unfold decode, encode. rewrite le_value_le_bytes.
  rewrite Z2Nat.id by (destruct t; done).
  destruct t; try discriminate;
    cbn [elementSize lower_bound upper_bound] in *.
  - apply Z.mod_small. lia.
  - destruct (Z.lt_ge_cases v 0).
    + rewrite <- (Z.mod_add v 1) by lia. rewrite Z.mod_small by lia.
      rewrite (proj2 (Z.leb_gt _ _)) by lia. lia.
    + rewrite Z.mod_small by lia. by rewrite (proj2 (Z.leb_le _ _)) by lia.
  - destruct (Z.lt_ge_cases v 0).
    + rewrite <- (Z.mod_add v 1) by lia. rewrite Z.mod_small by lia.
      rewrite (proj2 (Z.leb_gt _ _)) by lia. lia.
    + rewrite Z.mod_small by lia. by rewrite (proj2 (Z.leb_le _ _)) by lia.
  - destruct (Z.lt_ge_cases v 0).
    + rewrite <- (Z.mod_add v 1) by lia. rewrite Z.mod_small by lia.
      rewrite (proj2 (Z.leb_gt _ _)) by lia. lia.
    + rewrite Z.mod_small by lia. by rewrite (proj2 (Z.leb_le _ _)) by lia.
  - destruct (Z.lt_ge_cases v 0).
    + rewrite <- (Z.mod_add v 1) by lia. rewrite Z.mod_small by lia.
      rewrite (proj2 (Z.leb_gt _ _)) by lia. lia.
    + rewrite Z.mod_small by lia. by rewrite (proj2 (Z.leb_le _ _)) by lia.
  - assert (v = 0 \/ v = 1) as [-> | ->] by lia; reflexivity.
Qed.

Lemma numel_nonneg (t : Tensor) : valid t -> 0 <= numel t.
Proof.
  intros [H _]. unfold nbytes in H.
  pose proof (elementSize_pos (scalar_type t)). nia.
Qed.

(** X4: for valid tensors, an integer or boolean input, a boolean or
    integer scalar and an output that accepts the input's shape and the
    computation dtype, [bitwise_or_Scalar_out] returns an output of the
    input's shape whose element [i] holds the bytes of the OR of input
    element [i] and the scalar, computed in the computation dtype and cast
    to the output's dtype; for an integral output that element reads as
    this value; the output buffer past the last element is untouched. *)
Theorem bitwise_or_Scalar_out_elements (a : Tensor) (b : Scalar) (out out1 : Tensor) :
  honest request_storage ->
  valid a -> valid out ->
  resize_tensor out (sizes a) = inr out1 ->
  INT_TYPES_AND_Bool (scalar_type a) = true ->
  SCALAR_OBJ_INTB_TYPES (get_scalar_dtype b) = true ->
  canCast (promote_type_with_scalar (scalar_type a) b) (scalar_type out) = true ->
  let common_type := promote_type_with_scalar (scalar_type a) b in
  let result val_a :=
    static_cast (scalar_type out)
      (bitwise_or common_type (static_cast common_type val_a)
         (static_cast common_type (scalar_value b))) in
  exists out',
    outcome (bitwise_or_Scalar_out a b out) = Ok out'
    /\ sizes out' = sizes a
    /\ scalar_type out' = scalar_type out
    /\ (forall i, 0 <= i < numel a ->
         exists val_a,
           element a i = Some val_a
           /\ element_bytes (scalar_type out) (tensor_bytes out') i
              = encode (scalar_type out) (result val_a)
           /\ (isIntegralType (scalar_type out) true = true ->
               element out' i = Some (result val_a)))
    /\ drop (Z.to_nat (nbytes out')) (tensor_bytes out')
       = drop (Z.to_nat (nbytes out')) (tensor_bytes out1).
Proof.
  intros Hh Ha [_ Ho] R Hat Hbt Hcast common_type result.
  pose proof (numel_nonneg a Ha) as Hn. destruct Ha as [_ Ha].
  pose proof (resize_tensor_fits _ _ _ Hh Ho R) as Hfit.
  pose proof R as (Hs & Ht & _)%resize_tensor_inr.
  assert (numel out1 = numel a) as Hnum by (unfold numel; congruence).
  pose proof (elementSize_pos (scalar_type a)) as Hwa.
  pose proof (elementSize_pos (scalar_type out)) as Hwo.
  unfold bitwise_or_Scalar_out. rewrite R.
  unfold ET_SWITCH, ET_CHECK. rewrite Ht, Hcast, Hat, Hbt.
  rewrite promote_type_with_scalar_intb by done.
  replace (REAL_TYPES_AND_Bool (scalar_type out)) with true
    by (by destruct (scalar_type out)).
  rewrite Hnum.
  destruct (apply_unary_map_fn_valid
              (fun val_a => result val_a) (scalar_type a) (scalar_type out)
              (data_ptr a) (data_ptr out1) (numel a))
    as (p & Hrun & Hlen & _ & Hel & Htail);
    [done | done | unfold nbytes in Hfit; congruence |].
  unfold result, common_type, extract_scalar in *. rewrite Hrun.
  unfold finish. cbn [fst snd outcome].
  eexists. split; [done |]. cbn [with_data sizes scalar_type].
  split; [done |]. split; [done |]. split.
  - intros i Hi.
    assert ((i + 1) * elementSize (scalar_type a)
            <= buffer_bytes (data_ptr a)) as Hia by (unfold nbytes in Ha; nia).
    destruct (buffer_Some (data_ptr a) ((i + 1) * elementSize (scalar_type a)))
      as [src Hsrc]; [nia | done |].
    specialize (Hel i Hi). rewrite Hsrc in *. cbn [buffer_bytes] in Hia.
    cbn [default from_option id] in Hel.
    eexists. unfold element. rewrite Hsrc.
    split; [by apply load_element_bytes; lia |].
    unfold tensor_bytes. cbn [with_data data_ptr]. split; [done |].
    intros Hint. cbn [scalar_type].
    assert ((i + 1) * elementSize (scalar_type out) <= buffer_bytes p) as Hip.
    { rewrite Hlen. unfold nbytes in Hfit. rewrite Hnum, Ht in Hfit. nia. }
    destruct (buffer_Some p ((i + 1) * elementSize (scalar_type out)))
      as [dst ->]; [nia | done |].
    cbn [buffer_bytes default from_option id] in *. unfold element.
    cbn [with_data scalar_type data_ptr]. rewrite ?Ht.
    rewrite load_element_bytes by lia. rewrite Hel.
    f_equal. by apply decode_encode, static_cast_range.
  - unfold tensor_bytes, nbytes, numel. cbn [with_data sizes scalar_type data_ptr].
    rewrite Hs, Ht. exact Htail.
Qed.

(** X5: on valid tensors [bitwise_or_Scalar_out] makes no access outside a
    buffer, whatever the dtypes, the scalar and the shapes: the call
    returns the output or fails at a check. *)
Theorem bitwise_or_Scalar_out_in_bounds (a : Tensor) (b : Scalar) (out : Tensor) :
  honest request_storage ->
  valid a -> valid out ->
  outcome (bitwise_or_Scalar_out a b out) <> OutOfBounds.
Proof.
  intros Hh Ha Ho.
  pose proof (numel_nonneg a Ha) as Hn.
  unfold bitwise_or_Scalar_out.
  destruct (resize_tensor out (sizes a)) as [e | out1] eqn:R; [done |].
  pose proof (resize_tensor_fits _ _ _ Hh (proj2 Ho) R) as Hfit.
  pose proof R as (Hs & Ht & _)%resize_tensor_inr.
  assert (numel out1 = numel a) as Hnum by (unfold numel; congruence).
  unfold ET_SWITCH, ET_CHECK, failed.
  repeat (case_match; try done).
  match goal with
  | |- context [apply_unary_map_fn ?fn ?ci ?co ?di ?do ?n] =>
    destruct (apply_unary_map_fn_valid fn ci co di do n) as (p & -> & _)
  end; [lia | rewrite Hnum; apply Ha | apply Hfit | done].
Qed.

(** X6: [bitwise_or_Scalar_out] on an input without elements (some
    dimension is 0) runs the per-element function zero times and makes no
    access to a buffer; when it returns the output, the output's buffer is
    the one it came with, null pointer included. *)
Theorem bitwise_or_Scalar_out_zero_elements (a : Tensor) (b : Scalar) (out : Tensor) :
  0 ∈ sizes a ->
  trace (bitwise_or_Scalar_out a b out) = []
  /\ outcome (bitwise_or_Scalar_out a b out) <> OutOfBounds
  /\ forall out',
       outcome (bitwise_or_Scalar_out a b out) = Ok out' ->
       numel out' = 0 /\ data_ptr out' = data_ptr out.
Proof.
  intros H0%product_zero. unfold bitwise_or_Scalar_out.
  destruct (resize_tensor out (sizes a)) as [e | out1] eqn:R;
    [by repeat split |].
  pose proof R as (Hs & Ht & _)%resize_tensor_inr.
  assert (data_ptr out1 = data_ptr out) as Hd.
  { eapply resize_tensor_within_capacity; [done |].
    rewrite H0. apply capacity_nonneg. }
  assert (numel out1 = 0) as Hnum by (unfold numel; congruence).
  unfold ET_SWITCH, ET_CHECK, failed, finish, apply_unary_map_fn.
  rewrite Hnum. change (Z.to_nat 0) with 0%nat. cbn [for_each fst snd].
  repeat case_match; cbn [trace outcome];
    (split; [done |]; split; [done |]; intros out' Hout; simplify_eq).
  by cbn [with_data data_ptr].
Qed.

(** X7: bitwise-or has no floating instantiation: a call with a floating
    input tensor, in either entry point, or with a floating scalar, fails
    at a check, with no element computed or written. *)
Theorem bitwise_or_rejects_floating (a b out : Tensor) (s : Scalar) :
  (isFloatingType (scalar_type a) = true
   \/ isFloatingType (scalar_type b) = true ->
   exists e out', bitwise_or_Tensor_out a b out = failed e out')
  /\ (isFloatingType (scalar_type a) = true
      \/ isIntegralScalar s = false ->
      exists e out', bitwise_or_Scalar_out a s out = failed e out').
Proof.
  split; intros H.
  - unfold bitwise_or_Tensor_out.
    destruct (resize_to_broadcast_target_size a b out) as [e | out1];
      [by eauto |].
    unfold ET_SWITCH, ET_CHECK.
    destruct (canCast _ _); [| by eauto].
    destruct (scalar_type a), (scalar_type b), H as [H | H];
      try discriminate H; cbn; eauto.
  - unfold bitwise_or_Scalar_out.
    destruct (resize_tensor out (sizes a)) as [e | out1]; [by eauto |].
    unfold ET_SWITCH, ET_CHECK.
    destruct (canCast _ _); [| by eauto].
    destruct (scalar_type a), s, H as [H | H];
      try discriminate H; cbn; eauto.
Qed.

(** X8: when [bitwise_or_Tensor_out] returns, the inputs are of integer or
    boolean dtypes, their promoted dtype casts into the output's, the
    output has the broadcast shape of the two inputs and its own dtype, and
    the per-element function ran once for each position of that shape, in
    row-major order. *)
Theorem bitwise_or_Tensor_out_success (a b out out' : Tensor) :
  outcome (bitwise_or_Tensor_out a b out) = Ok out' ->
  INT_TYPES_AND_Bool (scalar_type a) = true
  /\ INT_TYPES_AND_Bool (scalar_type b) = true
  /\ canCast (promoteTypes (scalar_type a) (scalar_type b)) (scalar_type out)
     = true
  /\ (exists plan,
        broadcast (sizes a) (sizes b) = inr plan
        /\ sizes out' = plan_shape plan)
  /\ scalar_type out' = scalar_type out
  /\ trace (bitwise_or_Tensor_out a b out) = ElementFn <$> seqZ 0 (numel out').
Proof.
  unfold bitwise_or_Tensor_out, resize_to_broadcast_target_size.
  destruct (broadcast (sizes a) (sizes b)) as [e | plan] eqn:B; [done |].
  destruct (resize_tensor out (plan_shape plan)) as [e | out1] eqn:R; [done |].
  apply resize_tensor_inr in R as (Hs & Ht & _).
  unfold ET_SWITCH, ET_CHECK, failed, finish. rewrite Ht.
  destruct (canCast _ _); [| done].
  destruct (INT_TYPES_AND_Bool (scalar_type a)); [| done].
  destruct (INT_TYPES_AND_Bool (scalar_type b)); [| done].
  repeat (case_match; try done); simplify_eq /=.
  intros [= <-]. cbn [with_data sizes scalar_type].
  repeat split; eauto.
  unfold apply_binary_elementwise_fn in *.
  erewrite for_each_trace by eassumption.
  unfold numel. cbn [with_data sizes].
  destruct (Z.le_gt_cases 0 (product (sizes out1))).
  - by rewrite Z2Nat.id.
  - replace (Z.to_nat _) with 0%nat by lia. by rewrite !seqZ_nil by lia.
Qed.

Lemma compatible_comm (da db : Z) : compatible da db = compatible db da.
Proof.
  unfold compatible. rewrite (Z.eqb_sym da db).
  destruct (db =? da), (da =? 1), (db =? 1); reflexivity.
Qed.

Lemma broadcast_trailing_nil_l (l : list Z) :
  broadcast_trailing [] l = Some (Z.max 1 <$> l).
Proof. destruct l; [done |]. cbn. by rewrite compatible_1_l. Qed.

Lemma broadcast_trailing_nil_r (l : list Z) :
  broadcast_trailing l [] = Some (Z.max 1 <$> l).
Proof.
  induction l as [| d l IH]; [done |].
  cbn [broadcast_trailing]. rewrite compatible_1_r, IH. cbn.
  by rewrite Z.max_comm.
Qed.

Lemma broadcast_trailing_comm (ra rb : list Z) :
  broadcast_trailing ra rb = broadcast_trailing rb ra.
Proof.
  revert rb. induction ra as [| da ra IH]; intros rb.
  - by rewrite broadcast_trailing_nil_l, broadcast_trailing_nil_r.
  - destruct rb as [| db rb].
    + by rewrite broadcast_trailing_nil_l, broadcast_trailing_nil_r.
    + cbn [broadcast_trailing].
      by rewrite compatible_comm, IH, Z.max_comm.
Qed.

Lemma resize_to_broadcast_target_size_comm (a b out : Tensor) :
  resize_to_broadcast_target_size a b out
  = resize_to_broadcast_target_size b a out.
Proof.
  unfold resize_to_broadcast_target_size, broadcast.
  rewrite (broadcast_trailing_comm (rev (sizes a))).
  by destruct (broadcast_trailing _ _).
Qed.

Lemma for_each_ext body1 body2 (first : Z) (n : nat) out :
  (forall i o, body1 i o = body2 i o) ->
  for_each body1 first n out = for_each body2 first n out.
Proof.
  intros H. revert first out.
  induction n as [| n IH]; intros first out; cbn [for_each]; [done |].
  rewrite H. destruct (body2 first out); [| done]. by rewrite IH.
Qed.

(** X9: the tensor-tensor entry is commutative: exchanging the two input
    tensors gives the same run, the same output or the same failure. *)
Theorem bitwise_or_Tensor_out_comm (a b out : Tensor) :
  bitwise_or_Tensor_out a b out = bitwise_or_Tensor_out b a out.
Proof.
  unfold bitwise_or_Tensor_out.
  rewrite (resize_to_broadcast_target_size_comm a b out).
  destruct (resize_to_broadcast_target_size b a out) as [e | out1]; [done |].
  rewrite (promoteTypes_comm (scalar_type a)).
  unfold ET_SWITCH, ET_CHECK.
  destruct (canCast _ _); [| done].
  destruct (INT_TYPES_AND_Bool (scalar_type a)),
           (INT_TYPES_AND_Bool (scalar_type b)); try done.
  destruct (INT_TYPES_AND_Bool (promoteTypes _ _)); [| done].
  destruct (REAL_TYPES_AND_Bool _); [| done].
  f_equal. unfold apply_binary_elementwise_fn.
  apply for_each_ext. intros i o.
  destruct (load (scalar_type a) _ _), (load (scalar_type b) _ _); try done.
  by rewrite bitwise_or_comm.
Qed.

(** ** More properties of detach_copy_out *)

Lemma resize_tensor_same (t : Tensor) :
  nbytes t <= buffer_bytes (data_ptr t) ->
  resize_tensor t (sizes t) = inr t.
Proof.
  intros H. pose proof (elementSize_pos (scalar_type t)) as Hw.
  assert (product (sizes t) <= capacity t) as Hc.
  { unfold capacity. apply Z.div_le_lower_bound; [done |].
    unfold nbytes, numel in H. lia. }
  unfold resize_tensor, with_sizes.
  rewrite (proj2 (Z.leb_le _ _) Hc), decide_True by done.
  by destruct t as [? ? ? []].
Qed.

(** What a successful copy did. *)
Lemma detach_copy_out_Ok (self out out' : Tensor) :
  outcome (detach_copy_out self out) = Ok out' ->
  exists out1,
    resize_tensor out (sizes self) = inr out1
    /\ scalar_type self = scalar_type out1
    /\ ((nbytes self <= 0 /\ out' = out1
         /\ trace (detach_copy_out self out) = [])
        \/ (0 < nbytes self
            /\ trace (detach_copy_out self out) = [Memcpy (nbytes self)]
            /\ exists d s,
                 data_ptr out1 = Some d /\ data_ptr self = Some s
                 /\ nbytes self <= Z.of_nat (length d)
                 /\ nbytes self <= Z.of_nat (length s)
                 /\ out' = with_data out1
                             (Some (take (Z.to_nat (nbytes self)) s
                                    ++ drop (Z.to_nat (nbytes self)) d)))).
Proof.
  unfold detach_copy_out.
  destruct (resize_tensor out (sizes self)) as [e | out1] eqn:R; [done |].
  unfold ET_CHECK_SAME_SHAPE_AND_DTYPE2, ET_CHECK, failed.
  destruct (bool_decide _); [| done].
  destruct (ScalarType_eqb _ _) eqn:E; [| done].
  apply ScalarType_eqb_eq in E.
  destruct (Z.ltb_spec 0 (nbytes self)) as [Hn | Hn]; cbn [outcome trace].
  - destruct (memcpy _ _ _) as [p |] eqn:M; [| done].
    intros [= <-]. exists out1. split; [done |]. split; [done |]. right.
    apply memcpy_contents in M as (d & s & Hd & Hsrc & -> & _ & Hld & Hls).
    split; [done |]. split; [done |]. by exists d, s.
  - intros [= <-]. exists out1. split; [done |]. split; [done |]. by left.
Qed.

(** X10: on valid tensors [detach_copy_out] makes no access outside a
    buffer, whatever the shapes and dtypes: [memcpy] is called only with
    buffers that hold the bytes to copy. *)
Theorem detach_copy_out_in_bounds (self out : Tensor) :
  honest request_storage ->
  valid self -> valid out ->
  outcome (detach_copy_out self out) <> OutOfBounds.
Proof.
  intros Hh [Hs0 Hs1] [_ Ho1]. unfold detach_copy_out.
  destruct (resize_tensor out (sizes self)) as [e | out1] eqn:R; [done |].
  pose proof (resize_tensor_fits _ _ _ Hh Ho1 R) as Hfit.
  pose proof R as (Hs & Ht & _)%resize_tensor_inr.
  unfold ET_CHECK_SAME_SHAPE_AND_DTYPE2, ET_CHECK, failed.
  destruct (bool_decide _); [| done].
  destruct (ScalarType_eqb _ _) eqn:E; [| done].
  apply ScalarType_eqb_eq in E.
  assert (nbytes out1 = nbytes self) as Hnb
    by (unfold nbytes, numel; congruence).
  destruct (Z.ltb_spec 0 (nbytes self)) as [Hn | Hn]; cbn [outcome]; [| done].
  destruct (buffer_Some (data_ptr self) (nbytes self)) as [s Es]; [done.. |].
  destruct (buffer_Some (data_ptr out1) (nbytes self)) as [d Ed];
    [done | lia |].
  rewrite Es, Ed in *. cbn [buffer_bytes] in *. unfold memcpy.
  rewrite !(proj2 (Z.leb_le _ _)) by lia. done.
Qed.

(** X11: a successful copy changes the first [nbytes] bytes of the
    output's buffer and nothing else: the buffer keeps its length, and its
    bytes past the copied ones, the output its dtype and its dynamism, and
    the output's shape is the input's. *)
Theorem detach_copy_out_frame (self out out' : Tensor) :
  outcome (detach_copy_out self out) = Ok out' ->
  exists out1,
    resize_tensor out (sizes self) = inr out1
    /\ sizes out' = sizes self
    /\ scalar_type out' = scalar_type out
    /\ shape_dynamism out' = shape_dynamism out
    /\ length (tensor_bytes out') = length (tensor_bytes out1)
    /\ take (Z.to_nat (nbytes self)) (tensor_bytes out')
       = take (Z.to_nat (nbytes self)) (tensor_bytes self)
    /\ drop (Z.to_nat (nbytes self)) (tensor_bytes out')
       = drop (Z.to_nat (nbytes self)) (tensor_bytes out1).
Proof.
  intros (out1 & R & Ht & H)%detach_copy_out_Ok.
  pose proof R as (Hs & Ht1 & Hd)%resize_tensor_inr.
  exists out1. split; [done |].
  destruct H as [(Hn & -> & _) | (Hn & _ & d & s & Ed & Es & Hld & Hls & ->)].
  - repeat split; try done.
    replace (Z.to_nat (nbytes self)) with 0%nat by lia. done.
  - unfold tensor_bytes. cbn [with_data sizes scalar_type shape_dynamism data_ptr].
    rewrite Ed, Es. cbn [default from_option id].
    repeat split; try done.
    + rewrite length_app, length_take, length_drop. lia.
    + rewrite take_app_le by (rewrite length_take; lia).
      rewrite take_take. f_equal. lia.
    + rewrite drop_app_length'; [done |]. rewrite length_take. lia.
Qed.

(** X12: copying is idempotent: copying the same input again into the
    output of a successful copy is the same run and returns that output
    unchanged. *)
Theorem detach_copy_out_idempotent (self out out' : Tensor) :
  outcome (detach_copy_out self out) = Ok out' ->
  detach_copy_out self out'
  = {| trace := trace (detach_copy_out self out); outcome := Ok out' |}.
Proof.
  intros (out1 & R & Ht & H)%detach_copy_out_Ok.
  pose proof R as (Hs & Ht1 & Hd)%resize_tensor_inr.
  pose proof (buffer_bytes_nonneg (data_ptr out1)) as Hb.
  assert (nbytes out1 = nbytes self) as Hnb
    by (unfold nbytes, numel; congruence).
  destruct H as [(Hn & -> & ->) | (Hn & -> & d & s & Ed & Es & Hld & Hls & ->)].
  - unfold detach_copy_out. rewrite <- Hs.
    rewrite resize_tensor_same by lia.
    unfold ET_CHECK_SAME_SHAPE_AND_DTYPE2, ET_CHECK.
    rewrite bool_decide_true by done.
    replace (ScalarType_eqb _ _) with true
      by (symmetry; by apply ScalarType_eqb_eq).
    by rewrite (proj2 (Z.ltb_ge _ _)) by lia.
  - set (buf := take _ s ++ drop _ d).
    assert (length buf = length d) as Hl.
    { unfold buf. rewrite length_app, length_take, length_drop. lia. }
    assert (resize_tensor (with_data out1 (Some buf)) (sizes self)
            = inr (with_data out1 (Some buf))) as R'.
    { rewrite <- Hs. apply (resize_tensor_same (with_data out1 (Some buf))).
      unfold nbytes, numel in *. cbn [with_data sizes scalar_type data_ptr
        buffer_bytes]. lia. }
    unfold detach_copy_out. rewrite R'.
    unfold ET_CHECK_SAME_SHAPE_AND_DTYPE2, ET_CHECK.
    cbn [with_data sizes scalar_type data_ptr].
    rewrite bool_decide_true by done.
    replace (ScalarType_eqb _ _) with true
      by (symmetry; by apply ScalarType_eqb_eq).
    rewrite (proj2 (Z.ltb_lt _ _)) by lia.
    rewrite Es. unfold memcpy.
    rewrite !(proj2 (Z.leb_le _ _)) by lia. cbn [andb].
    do 4 f_equal. unfold buf.
    rewrite drop_app_length'; [done |]. rewrite length_take. lia.
Qed.

(** ** The binary applier on inputs of one shape *)

Lemma source_offset_app (i1 s1 : list Z) (x y : Z) :
  length i1 = length s1 ->
  source_offset (i1 ++ [x]) (s1 ++ [y]) = source_offset i1 s1 + x * y.
Proof.
  revert s1. induction i1 as [| i i1 IH]; intros [| s s1] Hl;
    try discriminate; cbn [app source_offset].
  - lia.
  - rewrite IH by (simpl in Hl; lia). lia.
Qed.

Lemma source_offset_rev (index strides : list Z) :
  length index = length strides ->
  source_offset (rev index) (rev strides) = source_offset index strides.
Proof.
  revert strides. induction index as [| i index IH]; intros [| s strides] Hl;
    try discriminate; [done |].
  cbn [rev source_offset].
  rewrite source_offset_app by (rewrite !length_rev; simpl in Hl; lia).
  rewrite IH by (simpl in Hl; lia). lia.
Qed.

Lemma length_delinearize_trailing (rshape : list Z) (lin : Z) :
  length (delinearize_trailing rshape lin) = length rshape.
Proof.
  revert lin. induction rshape as [| d r IH]; intros lin; simpl; [done |].
  by rewrite IH.
Qed.

Lemma length_strides_trailing (rin : list Z) (rank : nat) (stride : Z) :
  length (strides_trailing rin rank stride) = rank.
Proof.
  revert rin stride. induction rank as [| n IH]; intros rin stride; [done |].
  destruct rin; simpl; by rewrite IH.
Qed.

Lemma product_app (l1 l2 : list Z) : product (l1 ++ l2) = product l1 * product l2.
Proof.
  unfold product. induction l1 as [| d l1 IH]; cbn [app foldr]; [lia |].
  rewrite IH. lia.
Qed.

Lemma product_rev (l : list Z) : product (rev l) = product l.
Proof.
  induction l as [| d l IH]; [done |]. cbn [rev].
  rewrite product_app, IH. unfold product. cbn [foldr]. lia.
Qed.

Lemma product_pos (l : list Z) : Forall (Z.lt 0) l -> 0 < product l.
Proof.
  unfold product. induction 1 as [| d l Hd _ IH]; cbn [foldr]; lia.
Qed.

Lemma positive_dims (l : list Z) :
  Forall (Z.le 0) l -> 0 < product l -> Forall (Z.lt 0) l.
Proof.
  unfold product. induction 1 as [| d l Hd Hl IH]; cbn [foldr]; [done |].
  intros Hp. destruct (Z.eq_dec d 0) as [-> | Hd0]; [lia |].
  constructor; [lia |]. apply IH. nia.
Qed.

(** The position of a multi-index in the tensor whose shape it ranges
    over is the linear position it came from. *)
Lemma trailing_offset (rshape : list Z) :
  forall lin stride,
    Forall (Z.lt 0) rshape ->
    source_offset (delinearize_trailing rshape lin)
                  (strides_trailing rshape (length rshape) stride)
    = stride * (lin mod product rshape).
Proof.
  induction rshape as [| d r IH]; intros lin stride Hpos.
  - cbn. rewrite Z.mod_1_r. lia.
  - apply Forall_cons in Hpos as [Hd Hr].
    pose proof (product_pos r Hr) as Hp.
    cbn [delinearize_trailing length strides_trailing source_offset].
    rewrite IH by done.
    replace (product (d :: r)) with (d * product r) by done.
    rewrite (Z.rem_mul_r lin d (product r)) by lia.
    destruct (Z.eqb_spec d 1) as [-> | Hne].
    + rewrite Z.mod_1_r. lia.
    + lia.
Qed.

Lemma same_shape_offset (shape : list Z) (lin : Z) :
  Forall (Z.le 0) shape -> 0 <= lin < product shape ->
  source_offset (delinearize shape lin) (broadcast_strides shape shape) = lin.
Proof.
  intros Hnn Hlin. unfold delinearize, broadcast_strides.
  rewrite source_offset_rev
    by (by rewrite length_delinearize_trailing, length_strides_trailing,
          length_rev).
  rewrite <- (length_rev shape), trailing_offset.
  - rewrite product_rev, Z.mod_small by done. lia.
  - apply Forall_rev. apply positive_dims; [done | lia].
Qed.

Lemma broadcast_trailing_same (r : list Z) : broadcast_trailing r r = Some r.
Proof.
  induction r as [| d r IH]; [done |]. cbn [broadcast_trailing].
  unfold compatible. rewrite Z.eqb_refl, IH. cbn. by rewrite Z.max_id.
Qed.

Lemma resize_to_broadcast_target_size_same (a b out : Tensor) :
  sizes a = sizes b ->
  resize_to_broadcast_target_size a b out = resize_tensor out (sizes a).
Proof.
  intros Hab. unfold resize_to_broadcast_target_size, broadcast.
  rewrite <- Hab, broadcast_trailing_same. cbn. by rewrite rev_involutive.
Qed.

Lemma for_each_ext_range body1 body2 (first : Z) (n : nat) out :
  (forall i o, first <= i < first + Z.of_nat n -> body1 i o = body2 i o) ->
  for_each body1 first n out = for_each body2 first n out.
Proof.
  revert first out.
  induction n as [| n IH]; intros first out H; cbn [for_each]; [done |].
  rewrite H by lia. destruct (body2 first out) as [out' |]; [| done].
  rewrite IH; [done |]. intros i o Hi. apply H. lia.
Qed.

Lemma for_each_values (COUT : ScalarType) (val : Z -> option Z) (k : nat) :
  forall (first : Z) (d : list Z),
    0 <= first ->
    (first + Z.of_nat k) * elementSize COUT <= Z.of_nat (length d) ->
    (forall j, first <= j < first + Z.of_nat k -> is_Some (val j)) ->
    exists d',
      for_each
        (fun i out =>
           match val i with
           | None => None
           | Some v => store COUT out i v
           end) first k (Some d)
      = (ElementFn <$> seqZ first (Z.of_nat k), Some (Some d'))
      /\ length d' = length d
      /\ (forall j, first <= j < first + Z.of_nat k ->
           exists v, val j = Some v /\ element_bytes COUT d' j = encode COUT v)
      /\ (forall j, 0 <= j < first ->
           element_bytes COUT d' j = element_bytes COUT d j).
Proof.
  pose proof (elementSize_pos COUT) as Hwo.
  induction k as [| k IH]; intros first d H0 Hd Hval; cbn [for_each].
  - exists d. split; [done |]. split; [done |]. split; [intros; lia | done].
  - destruct (Hval first) as [v Hv]; [lia |]. rewrite Hv.
    rewrite store_Some by nia.
    set (d1 := store_at COUT d first v).
    assert (length d1 = length d) as Hl1 by (apply store_at_length; nia).
    destruct (IH (first + 1) d1) as (d' & Hrun & Hl & Hnew & Hold);
      [lia | rewrite Hl1; nia | intros; apply Hval; lia |].
    exists d'. rewrite Hrun. cbn [fst snd]. split.
    { f_equal. rewrite (seqZ_cons first) by lia. cbn [fmap list_fmap].
      replace (Z.pred (Z.of_nat (S k))) with (Z.of_nat k) by lia.
      by replace (Z.succ first) with (first + 1) by lia. }
    split; [congruence |]. split.
    + intros j Hj. destruct (decide (j = first)) as [-> | Hne].
      * exists v. split; [done |]. rewrite Hold by lia.
        unfold d1. by rewrite store_at_bytes_same by nia.
      * apply Hnew. lia.
    + intros j Hj. rewrite Hold by lia.
      apply store_at_bytes_other; lia || nia.
Qed.

Lemma promoteTypes_intb (a b : ScalarType) :
  INT_TYPES_AND_Bool a = true -> INT_TYPES_AND_Bool b = true ->
  INT_TYPES_AND_Bool (promoteTypes a b) = true.
Proof. destruct a, b; done. Qed.

Lemma element_valid (t : Tensor) (i : Z) :
  valid t -> 0 <= i < numel t ->
  exists buf,
    data_ptr t = Some buf
    /\ (i + 1) * elementSize (scalar_type t) <= Z.of_nat (length buf)
    /\ element t i
       = Some (decode (scalar_type t) (element_bytes (scalar_type t) buf i)).
Proof.
  intros [_ Hv] Hi. pose proof (elementSize_pos (scalar_type t)) as Hw.
  unfold nbytes in Hv.
  destruct (buffer_Some (data_ptr t) ((i + 1) * elementSize (scalar_type t)))
    as [buf Hb]; [nia | nia |].
  rewrite Hb in Hv. cbn [buffer_bytes] in Hv.
  exists buf. split; [done |]. split; [nia |].
  unfold element. rewrite Hb. apply load_element_bytes; [lia | nia].
Qed.

(** X13: for valid integer or boolean inputs of one shape and an output
    that accepts the shape and the promoted dtype,
    [bitwise_or_Tensor_out] returns an output of that shape whose element
    [i] holds the bytes of the OR of the two input elements [i], computed
    in the promoted dtype and cast to the output's dtype; for an integral
    output that element reads as this value. *)
Theorem bitwise_or_Tensor_out_same_shape (a b out out1 : Tensor) :
  honest request_storage ->
  valid a -> valid b -> valid out ->
  sizes a = sizes b ->
  Forall (Z.le 0) (sizes a) ->
  resize_tensor out (sizes a) = inr out1 ->
  INT_TYPES_AND_Bool (scalar_type a) = true ->
  INT_TYPES_AND_Bool (scalar_type b) = true ->
  canCast (promoteTypes (scalar_type a) (scalar_type b)) (scalar_type out) = true ->
  let common_type := promoteTypes (scalar_type a) (scalar_type b) in
  let result val_a val_b :=
    static_cast (scalar_type out)
      (bitwise_or common_type (static_cast common_type val_a)
         (static_cast common_type val_b)) in
  exists out',
    outcome (bitwise_or_Tensor_out a b out) = Ok out'
    /\ sizes out' = sizes a
    /\ scalar_type out' = scalar_type out
    /\ forall i, 0 <= i < numel a ->
         exists val_a val_b,
           element a i = Some val_a
           /\ element b i = Some val_b
           /\ element_bytes (scalar_type out) (tensor_bytes out') i
              = encode (scalar_type out) (result val_a val_b)
           /\ (isIntegralType (scalar_type out) true = true ->
               element out' i = Some (result val_a val_b)).
Proof.
  intros Hh Ha Hb [_ Ho] Hab Hnn R Hat Hbt Hcast common_type result.
  pose proof (numel_nonneg a Ha) as Hn.
  pose proof (resize_tensor_fits _ _ _ Hh Ho R) as Hfit.
  pose proof R as (Hs & Ht & _)%resize_tensor_inr.
  assert (numel out1 = numel a) as Hnum by (unfold numel; congruence).
  assert (numel b = numel a) as Hnumb by (unfold numel; congruence).
  pose proof (elementSize_pos (scalar_type out)) as Hwo.
  unfold bitwise_or_Tensor_out.
  rewrite resize_to_broadcast_target_size_same, R by done.
  unfold ET_SWITCH, ET_CHECK. rewrite Ht, Hcast, Hat, Hbt.
  rewrite promoteTypes_intb by done.
  replace (REAL_TYPES_AND_Bool (scalar_type out)) with true
    by (by destruct (scalar_type out)).
  unfold apply_binary_elementwise_fn. rewrite Hnum, Hs, <- Hab.
  fold common_type.
  set (val := fun i =>
    match element a i, element b i with
    | Some val_a, Some val_b => Some (result val_a val_b)
    | _, _ => None
    end).
  erewrite for_each_ext_range with
    (body2 := fun i o => match val i with
                         | None => None
                         | Some v => store (scalar_type out) o i v
                         end).
  2: { intros i o Hi. rewrite Z2Nat.id in Hi by lia.
       rewrite same_shape_offset by (unfold numel in *; done || lia).
       unfold val, element.
       by destruct (load (scalar_type a) (data_ptr a) i),
                   (load (scalar_type b) (data_ptr b) i). }
  assert (forall j, 0 <= j < numel a -> is_Some (val j)) as Hval.
  { intros j Hj. unfold val.
    destruct (element_valid a j Ha Hj) as (? & _ & _ & ->).
    destruct (element_valid b j Hb) as (? & _ & _ & ->); [lia |]. eauto. }
  assert (forall p,
    (forall i, 0 <= i < numel a ->
       exists v, val i = Some v
         /\ element_bytes (scalar_type out) (default [] p) i
            = encode (scalar_type out) v) ->
    buffer_bytes p = buffer_bytes (data_ptr out1) ->
    forall i, 0 <= i < numel a ->
      exists val_a val_b,
        element a i = Some val_a /\ element b i = Some val_b
        /\ element_bytes (scalar_type out)
             (tensor_bytes (with_data out1 p)) i
           = encode (scalar_type out) (result val_a val_b)
        /\ (isIntegralType (scalar_type out) true = true ->
            element (with_data out1 p) i = Some (result val_a val_b)))
    as Hfinish.
  { intros p Hp Hlen i Hi. destruct (Hp i Hi) as (v & Hv & Hbytes).
    unfold val in Hv.
    destruct (element a i) as [val_a |]; [| done].
    destruct (element b i) as [val_b |]; [| done].
    simplify_eq. exists val_a, val_b. split; [done |]. split; [done |].
    unfold tensor_bytes. cbn [with_data data_ptr]. split; [done |].
    intros Hint. unfold element. cbn [with_data scalar_type data_ptr].
    assert ((i + 1) * elementSize (scalar_type out) <= buffer_bytes p) as Hip.
    { rewrite Hlen. unfold nbytes in Hfit. rewrite Hnum, Ht in Hfit. nia. }
    destruct (buffer_Some p ((i + 1) * elementSize (scalar_type out)))
      as [dst ->]; [nia | done |].
    cbn [buffer_bytes default from_option id] in *. rewrite Ht.
    rewrite load_element_bytes by lia. rewrite Hbytes.
    f_equal. by apply decode_encode, static_cast_range. }
  destruct (decide (numel a = 0)) as [Hz | Hz].
  - rewrite Hz. change (Z.to_nat 0) with 0%nat. cbn [for_each].
    unfold finish. cbn [fst snd outcome].
    eexists. split; [done |]. split; [done |]. split; [done |].
    intros i Hi. lia.
  - destruct (buffer_Some (data_ptr out1) (numel a * elementSize (scalar_type out)))
      as [d Hd]; [nia | unfold nbytes in Hfit; congruence |].
    rewrite Hd in *. cbn [buffer_bytes] in Hfit.
    destruct (for_each_values (scalar_type out) val (Z.to_nat (numel a)) 0 d)
      as (d' & Hrun & Hl & Hnew & _).
    { lia. }
    { unfold nbytes in Hfit. rewrite Hnum, Ht in Hfit. lia. }
    { intros j Hj. apply Hval. lia. }
    rewrite Hrun. unfold finish. cbn [fst snd outcome].
    eexists. split; [done |]. split; [done |]. split; [done |].
    apply Hfinish.
    + intros i Hi. apply Hnew. lia.
    + cbn [buffer_bytes]. lia.
Qed.

(** ** The invariant of the output *)

Lemma store_buffer_bytes (T : ScalarType) (o o' : option (list Z)) (i v : Z) :
  store T o i v = Some o' -> buffer_bytes o' = buffer_bytes o.
Proof.
  unfold store. destruct o as [buf |]; [| done].
  destruct (_ && _) eqn:C; [| done]. intros [= <-].
  apply andb_true_iff in C as [C1%Z.leb_le C2%Z.leb_le].
  cbn [buffer_bytes]. by rewrite store_at_length.
Qed.

Lemma for_each_buffer_bytes body (first : Z) (n : nat) out p :
  (forall i o o', body i o = Some o' -> buffer_bytes o' = buffer_bytes o) ->
  (for_each body first n out).2 = Some p ->
  buffer_bytes p = buffer_bytes out.
Proof.
  intros Hbody. revert first out.
  induction n as [| n IH]; intros first out; cbn [for_each].
  - by intros [= <-].
  - destruct (body first out) as [out1 |] eqn:B; [| done]. cbn [snd].
    intros H%IH. rewrite H. by eapply Hbody.
Qed.

Lemma product_nonneg (l : list Z) : Forall (Z.le 0) l -> 0 <= product l.
Proof.
  unfold product. induction 1 as [| d l Hd _ IH]; cbn [foldr]; nia.
Qed.

Lemma broadcast_trailing_nonneg (ra rb ro : list Z) :
  broadcast_trailing ra rb = Some ro ->
  Forall (Z.le 0) ra -> Forall (Z.le 0) rb -> Forall (Z.le 0) ro.
Proof.
  rewrite !Forall_forall. intros H%broadcast_trailing_shape Ha Hb x Hx.
  destruct H as [_ Hnth].
  apply list_elem_of_In, (In_nth _ _ 1) in Hx as (i & _ & <-).
  rewrite Hnth.
  assert (forall l, (forall y, y ∈ l -> 0 <= y) -> 0 <= nth i l 1) as Hn.
  { intros l Hl. destruct (Nat.lt_ge_cases i (length l)).
    - apply Hl, list_elem_of_In, nth_In. done.
    - rewrite nth_overflow by done. lia. }
  pose proof (Hn ra Ha). lia.
Qed.

(** X14: the operators keep the output within its buffer: when a call on
    a valid output returns, the output it returns is valid, its elements
    fitting its buffer, for the copy and the tensor-scalar entry on a valid
    input and for the tensor-tensor entry on inputs of non-negative
    dimensions. *)
Theorem outputs_stay_valid (a b self out out' : Tensor) (s : Scalar) :
  honest request_storage ->
  valid out ->
  (valid self ->
   outcome (detach_copy_out self out) = Ok out' -> valid out')
  /\ (valid a ->
      outcome (bitwise_or_Scalar_out a s out) = Ok out' -> valid out')
  /\ (Forall (Z.le 0) (sizes a) -> Forall (Z.le 0) (sizes b) ->
      outcome (bitwise_or_Tensor_out a b out) = Ok out' -> valid out').
Proof.
  intros Hh [_ Ho]. split; [| split].
  - intros Hself (out1 & R & Ht & H)%detach_copy_out_Ok.
    pose proof (resize_tensor_fits _ _ _ Hh Ho R) as Hfit.
    pose proof R as (Hs & _)%resize_tensor_inr.
    assert (nbytes out1 = nbytes self) as Hnb
      by (unfold nbytes, numel; congruence).
    destruct H as [(_ & -> & _) | (_ & _ & d & s' & Ed & _ & Hld & Hls & ->)].
    + split; [rewrite Hnb; apply Hself | done].
    + unfold valid, nbytes, numel in *.
      cbn [with_data sizes scalar_type data_ptr buffer_bytes].
      rewrite length_app, length_take, length_drop. rewrite Hs, <- Ht. lia.
  - intros Ha. pose proof (numel_nonneg a Ha) as Hn.
    unfold bitwise_or_Scalar_out.
    destruct (resize_tensor out (sizes a)) as [e | out1] eqn:R; [done |].
    pose proof (resize_tensor_fits _ _ _ Hh Ho R) as Hfit.
    pose proof R as (Hs & _)%resize_tensor_inr.
    pose proof (elementSize_pos (scalar_type out1)).
    unfold ET_SWITCH, ET_CHECK, failed, finish.
    repeat (case_match; try done). intros [= <-].
    unfold valid, nbytes, numel in *.
    cbn [with_data sizes scalar_type data_ptr]. rewrite Hs in *.
    split; [nia |].
    unfold apply_unary_map_fn in *.
    erewrite for_each_buffer_bytes; [done | | done].
    intros j q q' Hb. cbn beta in Hb. case_match; [| done].
    by eapply store_buffer_bytes.
  - intros Hna Hnb.
    unfold bitwise_or_Tensor_out, resize_to_broadcast_target_size, broadcast.
    destruct (broadcast_trailing _ _) as [ro |] eqn:B; [| done].
    apply broadcast_trailing_nonneg in B; [| by apply Forall_rev..].
    cbn [plan_shape].
    destruct (resize_tensor out (rev ro)) as [e | out1] eqn:R; [done |].
    pose proof (resize_tensor_fits _ _ _ Hh Ho R) as Hfit.
    pose proof R as (Hs & _)%resize_tensor_inr.
    pose proof (elementSize_pos (scalar_type out1)).
    pose proof (product_nonneg (rev ro) ltac:(by apply Forall_rev)) as Hp.
    unfold ET_SWITCH, ET_CHECK, failed, finish.
    repeat (case_match; try done). intros [= <-].
    unfold valid, nbytes, numel in *.
    cbn [with_data sizes scalar_type data_ptr]. rewrite Hs in *.
    split; [nia |].
    unfold apply_binary_elementwise_fn in *.
    erewrite for_each_buffer_bytes; [done | | done].
    intros j q q' Hb. cbn beta zeta in Hb. repeat case_match; try done.
    by eapply store_buffer_bytes.
Qed.

End Engine.

(** ** The properties at sample tensors *)

(** Bitwise-or of the boolean tensor [false, true] with itself, broadcast
    against shape [1, 2]. *)
Example bitwise_or_bool_broadcast :
  bitwise_or_Tensor_out no_storage bool_row bool_1_2 bool_out_1_2
  = {| trace := [ElementFn 0; ElementFn 1];
       outcome := Ok (mkTensor [1; 2] Bool (Some [0; 1]) STATIC) |}.
Proof. reflexivity. Qed.

(** Bitwise-or of an int8 column with an int16 row into an int32 output. *)
Example bitwise_or_column_row :
  outcome (bitwise_or_Tensor_out no_storage char_column short_row int_out_8)
  = Ok (mkTensor [2; 3] Int
          (Some [255; 255; 255; 255; 255; 255; 255; 255; 255; 255; 255; 255;
                 3; 0; 0; 0; 3; 1; 0; 0; 7; 0; 0; 0;
                 7; 7; 7; 7; 7; 7; 7; 7]) DYNAMIC_BOUND).
Proof. reflexivity. Qed.

(** The same into a float32 output: -1.0 three times, then 3.0, 259.0, 7.0. *)
Example bitwise_or_column_row_float :
  outcome (bitwise_or_Tensor_out no_storage char_column short_row
             (mkTensor [6] Float (Some (replicate 24 7)) DYNAMIC_BOUND))
  = Ok (mkTensor [2; 3] Float
          (Some [0; 0; 128; 191; 0; 0; 128; 191; 0; 0; 128; 191;
                 0; 0; 64; 64; 0; 128; 129; 67; 0; 0; 224; 64]) DYNAMIC_BOUND).
Proof. reflexivity. Qed.

(** The checks of op_tan_test.cpp that do not depend on the values of the
    tangent. *)

(** AllNonFloatOutputDTypeDies: a float input into an output of each
    integer dtype. *)
Example tan_out_int_output_dies :
  Forall
    (fun dtype =>
       exists e out',
         outcome (tan_out no_storage (fun _ _ v => v) float_ones_2_5
                    (zeros dtype [2; 5] STATIC)) = Failure e out')
    [Byte; Char; Short; Int; Long].
Proof. repeat constructor; do 2 eexists; reflexivity. Qed.

(** MismatchedInputShapesDies: an input of shape [4] into a static output
    of shape [2, 2]. *)
Example tan_out_mismatched_shapes_dies :
  tan_out no_storage (fun _ _ v => v)
    (zeros Float [4] STATIC) (zeros Float [2; 2] STATIC)
  = failed ResizeNotAllowed (zeros Float [2; 2] STATIC).
Proof. reflexivity. Qed.

(** The bound-dynamism tests: a 10 x 10 output takes the shape [1, 6] of
    the input. *)
Example tan_out_bound_output_resized :
  exists out',
    outcome (tan_out no_storage (fun _ _ v => v)
               (zeros Int [1; 6] STATIC) (zeros Float [10; 10] DYNAMIC_BOUND))
    = Ok out'
    /\ sizes out' = [1; 6].
Proof. eexists. split; reflexivity. Qed.

(** HandleBoolInput: a boolean input is accepted by a float output. *)
Example tan_out_bool_input :
  exists out',
    outcome (tan_out no_storage (fun _ _ v => v)
               bool_1_2 (zeros Float [1; 2] STATIC))
    = Ok out'.
Proof. eexists. reflexivity. Qed.

(** Conversions of integers to float32 and float64 bit patterns. *)
Example static_cast_float :
  static_cast Float 1 = 0x3F800000
  /\ static_cast Float (-2) = 0xC0000000
  /\ static_cast Float 16777217 = 0x4B800000
  /\ static_cast Double 100 = 0x4059000000000000
  /\ static_cast Char 255 = -1
  /\ static_cast Byte (-1) = 255.
Proof. repeat split; reflexivity. Qed.

(** The allocator that provides nothing is honest. *)
Lemma no_storage_honest : honest no_storage.
Proof. intros n buf H. discriminate H. Defined.

(** The checks at work on a bounded int32 output of four elements and on a
    static float32 output of two.  Two float32 tensors into the int32
    output: the resize passes and the cast check fails on the resized
    output.  A float32 tensor and an integer scalar into the float32
    output: the cast check passes and the dtype switch fails.  An int8
    tensor copied into the int32 output: the dtypes differ.  Shapes [3] and
    [2] do not broadcast; shapes [2, 1] and [3] need six elements.  An int8
    tensor and an integer scalar into an int8 output pass every check. *)
Lemma checks_precede_writes_witness :
  bitwise_or_Tensor_out no_storage float_pair float_pair int_out_4
  = failed UnsupportedCast (with_sizes int_out_4 [2])
  /\ bitwise_or_Scalar_out no_storage float_pair (ScalarInt 1)
       (zeros Float [2] STATIC)
     = failed UnsupportedDtype (zeros Float [2] STATIC)
  /\ detach_copy_out no_storage char_pair int_out_4
     = failed UnsupportedCast (with_sizes int_out_4 [2])
  /\ bitwise_or_Tensor_out no_storage short_row float_pair int_out_4
     = failed ShapeMismatch int_out_4
  /\ resize_to_broadcast_target_size no_storage char_column short_row int_out_4
     = inl ResizeNotAllowed
  /\ bitwise_or_Tensor_out no_storage char_column short_row int_out_4
     = failed ResizeNotAllowed int_out_4
  /\ (forall e out',
      outcome (bitwise_or_Scalar_out no_storage char_pair (ScalarInt 1) char_out_4)
      <> Failure e out')
  /\ trace (bitwise_or_Tensor_out no_storage float_pair float_pair int_out_4) = [].
Proof.
  destruct (checks_precede_writes no_storage float_pair float_pair char_pair
              int_out_4 (ScalarInt 1))
    as ((HT & _) & _ & (HD & _) & _ & _ & _ & HF & _).
  destruct (checks_precede_writes no_storage float_pair float_pair char_pair
              (zeros Float [2] STATIC) (ScalarInt 1))
    as (_ & (HS & _) & _).
  destruct (checks_precede_writes no_storage short_row float_pair char_pair
              int_out_4 (ScalarInt 1))
    as ((HM & _) & _ & _ & HB & _).
  destruct (checks_precede_writes no_storage char_column short_row char_pair
              int_out_4 (ScalarInt 1))
    as ((HR & _) & _ & _ & _ & HP & _).
  destruct (checks_precede_writes no_storage char_pair char_pair char_pair
              char_out_4 (ScalarInt 1))
    as (_ & (HO & _) & _).
  split; [exact HT |]. split; [exact HS |]. split; [exact HD |].
  split.
  { destruct (HB ShapeMismatch eq_refl) as [_ Hb].
    unfold bitwise_or_Tensor_out. rewrite Hb. reflexivity. }
  split; [rewrite (HP _ eq_refl); reflexivity |].
  split; [exact HR |]. split; [exact HO |].
  apply (HF UnsupportedCast (with_sizes int_out_4 [2])). reflexivity.
Defined.

(** At a cast check that fails after the resize, the output no longer has
    the shape it had before the call: the bounded output of shape [4] has
    taken the shape [2] of the input. *)
Lemma failed_check_changes_shape :
  outcome (bitwise_or_Tensor_out no_storage float_pair float_pair int_out_4)
  = Failure UnsupportedCast (with_sizes int_out_4 [2])
  /\ outcome (bitwise_or_Scalar_out no_storage char_pair
                (ScalarDouble (S754_zero false)) int_out_4)
     = Failure UnsupportedCast (with_sizes int_out_4 [2])
  /\ outcome (detach_copy_out no_storage char_pair int_out_4)
     = Failure UnsupportedCast (with_sizes int_out_4 [2])
  /\ sizes int_out_4 = [4]
  /\ sizes (with_sizes int_out_4 [2]) = [2]
  /\ ~ (forall a b out e out',
          outcome (bitwise_or_Tensor_out no_storage a b out) = Failure e out' ->
          sizes out' = sizes out)
  /\ ~ (forall a s out e out',
          outcome (bitwise_or_Scalar_out no_storage a s out) = Failure e out' ->
          sizes out' = sizes out)
  /\ ~ (forall self out e out',
          outcome (detach_copy_out no_storage self out) = Failure e out' ->
          sizes out' = sizes out).
Proof.
  repeat split; try reflexivity.
  - intros H.
    specialize (H float_pair float_pair int_out_4 UnsupportedCast
                  (with_sizes int_out_4 [2]) eq_refl).
    discriminate H.
  - intros H.
    specialize (H char_pair (ScalarDouble (S754_zero false)) int_out_4
                  UnsupportedCast (with_sizes int_out_4 [2]) eq_refl).
    discriminate H.
  - intros H.
    specialize (H char_pair int_out_4 UnsupportedCast
                  (with_sizes int_out_4 [2]) eq_refl).
    discriminate H.
Qed.

(** Shapes [4, 1, 3] and [2, 1] broadcast to rank 3 with 2 in the middle;
    shapes [3, 4] and [5] do not broadcast. *)
Lemma broadcast_aligned_witness :
  exists plan,
    broadcast [4; 1; 3] [2; 1] = inr plan
    /\ length (plan_shape plan) = 3%nat
    /\ dim_from_end (plan_shape plan) 1 = 2
    /\ broadcast [3; 4] [5] = inl ShapeMismatch.
Proof.
  eexists. split; [reflexivity |].
  destruct (broadcast_aligned [4; 1; 3] [2; 1]) as (_ & H & _).
  destruct (H _ eq_refl) as [Hlen Hdim].
  split; [exact Hlen |]. split; [exact (Hdim 1%nat) |].
  destruct (broadcast_aligned [3; 4] [5]) as (_ & _ & H').
  apply H'. exists 0%nat. repeat split; discriminate.
Defined.

(** An int8 tensor keeps its dtype with the scalar 100; an int32 tensor
    with a floating scalar computes in a floating dtype. *)
Lemma promote_type_with_scalar_integer_tensor_witness :
  promote_type_with_scalar Char (ScalarInt 100) = Char
  /\ isFloatingType
       (promote_type_with_scalar Int (ScalarDouble (S754_zero false))) = true.
Proof.
  split.
  - apply (promote_type_with_scalar_integer_tensor Char (ScalarInt 100));
      reflexivity.
  - apply (promote_type_with_scalar_integer_tensor Int
             (ScalarDouble (S754_zero false))); reflexivity.
Defined.

(** A static tensor takes its own shape only; a bounded tensor of four
    elements takes [2, 2] but not [5]. *)
Lemma resize_tensor_static_and_bound_witness :
  resize_tensor no_storage char_column [2; 1] = inr char_column
  /\ resize_tensor no_storage char_column [1; 2] = inl ResizeNotAllowed
  /\ resize_tensor no_storage int_out_4 [2; 2]
     = inr (mkTensor [2; 2] Int (data_ptr int_out_4) DYNAMIC_BOUND)
  /\ resize_tensor no_storage int_out_4 [5] = inl ResizeNotAllowed.
Proof.
  split; [| split; [| split]].
  - destruct (resize_tensor_static_and_bound no_storage char_column [2; 1])
      as [H _].
    destruct (H eq_refl) as (_ & H1 & _). apply H1. reflexivity.
  - destruct (resize_tensor_static_and_bound no_storage char_column [1; 2])
      as [H _].
    destruct (H eq_refl) as (_ & _ & H1). apply H1. discriminate.
  - destruct (resize_tensor_static_and_bound no_storage int_out_4 [2; 2])
      as [_ H].
    destruct (H eq_refl) as (_ & H1 & _). apply H1. vm_compute. discriminate.
  - destruct (resize_tensor_static_and_bound no_storage int_out_4 [5])
      as [_ H].
    destruct (H eq_refl) as (_ & _ & H1). apply H1. reflexivity.
Defined.



(** Copies of a tensor without elements and without a buffer. *)
Lemma detach_copy_out_zero_elements_witness :
  detach_copy_out no_storage empty_char empty_char
  = {| trace := []; outcome := Ok empty_char |}
  /\ trace (detach_copy_out no_storage empty_char char_out_4) = [].
Proof.
  assert (0 ∈ sizes empty_char) as H0 by (left).
  split.
  - apply (detach_copy_out_zero_elements no_storage empty_char empty_char H0);
      reflexivity.
  - apply (detach_copy_out_zero_elements no_storage empty_char char_out_4 H0).
Defined.

(** The copy of the int8 values -1 and 3 reads -1 and 3. *)
Lemma detach_copy_out_copies_elements_witness :
  exists out',
    outcome (detach_copy_out no_storage char_column char_out_4) = Ok out'
    /\ sizes out' = [2; 1]
    /\ element out' 0 = Some (-1)
    /\ element out' 1 = Some 3.
Proof.
  assert (valid char_column) as Hv1 by (split; vm_compute; discriminate).
  assert (valid char_out_4) as Hv2 by (split; vm_compute; discriminate).
  destruct (detach_copy_out_copies_elements no_storage char_column char_out_4
              (with_sizes char_out_4 [2; 1]) no_storage_honest Hv1 Hv2
              eq_refl eq_refl) as (out' & Hout & Hs & _ & He).
  exists out'. split; [exact Hout |]. split; [exact Hs |].
  split.
  - destruct (He 0) as (v & Hv & Hv'); [split; reflexivity || (vm_compute; discriminate) |].
    rewrite Hv'. rewrite <- Hv. reflexivity.
  - destruct (He 1) as (v & Hv & Hv'); [split; reflexivity || (vm_compute; discriminate) |].
    rewrite Hv'. rewrite <- Hv. reflexivity.
Defined.

(** Bitwise-or of a 2 x 1 tensor with the scalar 16 is a 2 x 1 tensor. *)
Lemma bitwise_or_Scalar_out_shape_witness :
  exists out',
    outcome (bitwise_or_Scalar_out no_storage char_column (ScalarInt 16) int_out_4)
    = Ok out'
    /\ sizes out' = [2; 1].
Proof.
  eexists. split; [reflexivity |].
  apply (bitwise_or_Scalar_out_shape no_storage char_column (ScalarInt 16)
           int_out_4). reflexivity.
Defined.

(** An int8 tensor is not copied into an int32 output; into an int8 output
    its bytes are copied as they are. *)
Lemma detach_copy_out_same_dtype_witness :
  (exists e out',
     detach_copy_out no_storage char_column int_out_4 = failed e out')
  /\ contents (with_data (with_sizes char_out_4 [2; 1]) (Some [255; 3; 9; 9]))
     = contents char_column.
Proof.
  split.
  - destruct (detach_copy_out_same_dtype no_storage char_column int_out_4)
      as [H _].
    destruct H as (e & out' & He & _); [discriminate |].
    exists e, out'. exact He.
  - destruct (detach_copy_out_same_dtype no_storage char_column char_out_4)
      as [_ H].
    apply H. reflexivity.
Defined.

(** ** The further properties at sample values and tensors *)

Lemma valid_char_column : valid char_column.
Proof. split; vm_compute; discriminate. Defined.

Lemma valid_short_column : valid short_column.
Proof. split; vm_compute; discriminate. Defined.

Lemma valid_int_out_4 : valid int_out_4.
Proof. split; vm_compute; discriminate. Defined.

Lemma valid_char_out_4 : valid char_out_4.
Proof. split; vm_compute; discriminate. Defined.

(** In int8, -128 | 3 is -125 and stays in range. *)
Lemma bitwise_or_in_range_witness :
  bitwise_or Char (-128) 3 = -125
  /\ representable Char (bitwise_or Char (-128) 3) = true.
Proof.
  destruct (bitwise_or_in_range Char (-128) 3 eq_refl eq_refl eq_refl)
    as (H & Hr & _).
  split; [rewrite H; reflexivity | exact Hr].
Defined.

(** In uint8: (200 | 7) | 64 = 200 | (7 | 64), and 200 | 0 = 200. *)
Lemma bitwise_or_algebra_witness :
  bitwise_or Byte (bitwise_or Byte 200 7) 64
  = bitwise_or Byte 200 (bitwise_or Byte 7 64)
  /\ bitwise_or Byte 200 0 = 200.
Proof.
  destruct (bitwise_or_algebra Byte 200 7 64) as [_ H].
  destruct (H eq_refl eq_refl eq_refl) as (Hassoc & _ & H0 & _).
  split; [exact Hassoc | exact H0].
Defined.

(** true | false computed in int32 and cast back to bool is true. *)
Lemma bitwise_or_bool_any_computation_dtype_witness :
  static_cast Bool
    (bitwise_or Int (static_cast Int (Z.b2z true))
                    (static_cast Int (Z.b2z false)))
  = Z.b2z (true || false).
Proof.
  apply (bitwise_or_bool_any_computation_dtype Int true false eq_refl).
Defined.

(** The int8 values -1 and 3 or-ed with the scalar 16 into an int32
    output. *)
Lemma bitwise_or_Scalar_out_elements_witness :
  exists out',
    outcome (bitwise_or_Scalar_out no_storage char_column (ScalarInt 16) int_out_4)
    = Ok out'
    /\ sizes out' = [2; 1]
    /\ scalar_type out' = Int.
Proof.
  destruct (bitwise_or_Scalar_out_elements no_storage char_column
              (ScalarInt 16) int_out_4 (with_sizes int_out_4 [2; 1])
              no_storage_honest valid_char_column valid_int_out_4
              eq_refl eq_refl eq_refl eq_refl)
    as (out' & Hout & Hs & Ht & _).
  exists out'. split; [exact Hout |]. split; [exact Hs | exact Ht].
Defined.

Lemma bitwise_or_Scalar_out_in_bounds_witness :
  outcome (bitwise_or_Scalar_out no_storage char_column (ScalarInt 16) int_out_4)
  <> OutOfBounds.
Proof.
  apply (bitwise_or_Scalar_out_in_bounds no_storage char_column (ScalarInt 16)
           int_out_4 no_storage_honest valid_char_column valid_int_out_4).
Defined.

(** An input without elements and without a buffer. *)
Lemma bitwise_or_Scalar_out_zero_elements_witness :
  trace (bitwise_or_Scalar_out no_storage empty_char (ScalarInt 1) empty_char)
  = []
  /\ outcome (bitwise_or_Scalar_out no_storage empty_char (ScalarInt 1)
               empty_char)
     <> OutOfBounds.
Proof.
  assert (0 ∈ sizes empty_char) as H0 by (left).
  destruct (bitwise_or_Scalar_out_zero_elements no_storage empty_char
              (ScalarInt 1) empty_char H0) as (Ht & Ho & _).
  split; [exact Ht | exact Ho].
Defined.

(** Float tensors, and a floating scalar, are refused. *)
Lemma bitwise_or_rejects_floating_witness :
  (exists e out',
     bitwise_or_Tensor_out no_storage float_pair float_pair
       (zeros Float [2] STATIC) = failed e out')
  /\ (exists e out',
        bitwise_or_Scalar_out no_storage char_column
          (ScalarDouble (S754_zero false)) (zeros Double [2; 1] STATIC)
        = failed e out').
Proof.
  split.
  - destruct (bitwise_or_rejects_floating no_storage float_pair float_pair
                (zeros Float [2] STATIC) (ScalarInt 0)) as [H _].
    apply H. left. reflexivity.
  - destruct (bitwise_or_rejects_floating no_storage char_column char_column
                (zeros Double [2; 1] STATIC)
                (ScalarDouble (S754_zero false))) as [_ H].
    apply H. right. reflexivity.
Defined.

(** An int8 column with an int16 row into an int32 output of eight. *)
Lemma bitwise_or_Tensor_out_success_witness :
  exists out',
    outcome (bitwise_or_Tensor_out no_storage char_column short_row int_out_8)
    = Ok out'
    /\ (exists plan,
          broadcast [2; 1] [3] = inr plan /\ sizes out' = plan_shape plan)
    /\ scalar_type out' = Int.
Proof.
  eexists. split; [reflexivity |].
  destruct (bitwise_or_Tensor_out_success no_storage char_column short_row
              int_out_8 _ eq_refl) as (_ & _ & _ & Hplan & Ht & _).
  split; [exact Hplan | exact Ht].
Defined.

Lemma detach_copy_out_in_bounds_witness :
  outcome (detach_copy_out no_storage char_column char_out_4) <> OutOfBounds
  /\ outcome (detach_copy_out no_storage char_column int_out_4) <> OutOfBounds.
Proof.
  split.
  - apply (detach_copy_out_in_bounds no_storage char_column char_out_4
             no_storage_honest valid_char_column valid_char_out_4).
  - apply (detach_copy_out_in_bounds no_storage char_column int_out_4
             no_storage_honest valid_char_column valid_int_out_4).
Defined.

(** The copy of two int8 values into a buffer of four bytes keeps the last
    two bytes. *)
Lemma detach_copy_out_frame_witness :
  exists out',
    outcome (detach_copy_out no_storage char_column char_out_4) = Ok out'
    /\ sizes out' = [2; 1]
    /\ drop 2 (tensor_bytes out') = [9; 9].
Proof.
  eexists. split; [reflexivity |].
  destruct (detach_copy_out_frame no_storage char_column char_out_4 _ eq_refl)
    as (out1 & R & Hs & _ & _ & _ & _ & Hdrop).
  split; [exact Hs |].
  injection R as <-. exact Hdrop.
Defined.

Lemma detach_copy_out_idempotent_witness :
  detach_copy_out no_storage char_column
    (mkTensor [2; 1] Char (Some [255; 3; 9; 9]) DYNAMIC_BOUND)
  = {| trace := [Memcpy 2];
       outcome := Ok (mkTensor [2; 1] Char (Some [255; 3; 9; 9]) DYNAMIC_BOUND) |}.
Proof.
  apply (detach_copy_out_idempotent no_storage char_column char_out_4).
  reflexivity.
Defined.

(** An int8 column or-ed with an int16 column into an int32 output. *)
Lemma bitwise_or_Tensor_out_same_shape_witness :
  exists out',
    outcome (bitwise_or_Tensor_out no_storage char_column short_column int_out_4)
    = Ok out'
    /\ sizes out' = [2; 1]
    /\ element out' 0 = Some (-1)
    /\ element out' 1 = Some 259.
Proof.
  assert (Forall (Z.le 0) (sizes char_column)) as Hnn
    by (repeat constructor; discriminate).
  destruct (bitwise_or_Tensor_out_same_shape no_storage char_column
              short_column int_out_4 (with_sizes int_out_4 [2; 1])
              no_storage_honest valid_char_column valid_short_column
              valid_int_out_4 eq_refl Hnn eq_refl eq_refl eq_refl eq_refl)
    as (out' & Hout & Hs & _ & He).
  exists out'. split; [exact Hout |]. split; [exact Hs |]. split.
  - destruct (He 0) as (va & vb & Ha & Hb & _ & Hint);
      [split; reflexivity || (vm_compute; discriminate) |].
    rewrite (Hint eq_refl).
    injection Ha as <-. injection Hb as <-. reflexivity.
  - destruct (He 1) as (va & vb & Ha & Hb & _ & Hint);
      [split; reflexivity || (vm_compute; discriminate) |].
    rewrite (Hint eq_refl).
    injection Ha as <-. injection Hb as <-. reflexivity.
Defined.

(** The outputs of the sample calls are valid. *)
Lemma outputs_stay_valid_witness :
  valid (mkTensor [2; 1] Char (Some [255; 3; 9; 9]) DYNAMIC_BOUND).
Proof.
  assert (Forall (Z.le 0) (sizes char_column)) as Hnn
    by (repeat constructor; discriminate).
  destruct (outputs_stay_valid no_storage char_column char_column
              char_column char_out_4
              (mkTensor [2; 1] Char (Some [255; 3; 9; 9]) DYNAMIC_BOUND)
              (ScalarInt 0) no_storage_honest valid_char_out_4) as [H _].
  apply H; [exact valid_char_column | reflexivity].
Defined.
